(** * graphDescend: breadth-first flattening of a nested document

    A shallow embedding of [src/graph-descend.js].  The JavaScript function
    builds one MongoDB aggregation expression; what is embedded here is the
    function that this expression denotes once the aggregation engine
    evaluates it against a document ([$$ROOT]).

    - BSON values are the inductive type [bson]; a field that is absent
      ("missing") is [None] in an [option bson].  The values that the plan
      looks into (null, booleans, integers, strings, arrays, documents)
      have a constructor each; a value of any other BSON type (double,
      long, objectId, date, ...) is only copied and tagged by the plan, and
      is an [Other] with its type and its bytes.
    - The two object literals the expression itself builds have a fixed
      shape and are records: a work-list entry [{_depth, _idx, subdoc}] is
      a [node], the accumulator [{result, subLevelsToInspect}] of the outer
      [$reduce] is an [acc].
    - [$let] is [let], [$cond] is [if], [$reduce] is [fold_left], and the
      variables [$$value] and [$$this] are the binders [value] and [this].
    - The parameters are the JavaScript arguments: field names are plain
      strings (an operand string that starts with a dollar sign would be
      read by the engine as a field path), [maxElements] and [maxDepth] are
      integers.
    - An operator that makes the engine abort the aggregation
      ([$objectToArray] on a value that is neither a document nor [null],
      [$range] on a bound that is not a 32-bit integer) makes the plan
      return [None].  The limits of the engine on memory and time are not
      part of the embedding. *)

From Stdlib Require Import List ZArith Bool Lia Ascii String.
From Stdlib Require Import DecimalString DecimalZ.
Import ListNotations.

Local Open Scope string_scope.
Local Open Scope list_scope.
Local Open Scope Z_scope.

(** ** BSON values *)

#[local] Set Warnings "-register-all".

(** The BSON types whose values the plan never looks into. *)
Inductive bson_tag : Type :=
| Double
| BinData
| Undefined
| ObjectId
| Date
| Regex
| DbPointer
| JavaScript
| Symbol
| JavaScriptWithScope
| Timestamp
| Long
| Decimal128
| MinKey
| MaxKey.

(** [Int n] is a whole number as a driver stores it: a 32-bit integer when
    it fits in 32 bits, a 64-bit one otherwise.  A 64-bit integer with a
    small value, as a value of every type of [bson_tag], is an [Other]. *)
Inductive bson : Type :=
| Null
| Boolean (b : bool)
| Int (n : Z)
| Str (s : string)
| Arr (l : list bson)
| Doc (fs : list (string * bson))
| Other (tag : bson_tag) (bytes : list Byte.byte).

Definition document : Type := list (string * bson).

(** Whether a number is representable as a 32-bit integer. *)
Definition int32 (n : Z) : bool :=
  (-2147483648 <=? n) && (n <=? 2147483647).

(** The name [$type] gives to a type of [bson_tag]. *)
Definition tag_name (t : bson_tag) : string :=
  match t with
  | Double => "double"
  | BinData => "binData"
  | Undefined => "undefined"
  | ObjectId => "objectId"
  | Date => "date"
  | Regex => "regex"
  | DbPointer => "dbPointer"
  | JavaScript => "javascript"
  | Symbol => "symbol"
  | JavaScriptWithScope => "javascriptWithScope"
  | Timestamp => "timestamp"
  | Long => "long"
  | Decimal128 => "decimal"
  | MinKey => "minKey"
  | MaxKey => "maxKey"
  end.

(** [$type]: the tag of a value that is present. *)
Definition bson_type (v : bson) : string :=
  match v with
  | Null => "null"
  | Boolean _ => "bool"
  | Int n => if int32 n then "int" else "long"
  | Str _ => "string"
  | Arr _ => "array"
  | Doc _ => "object"
  | Other t _ => tag_name t
  end.

(** The first field of a document with a given name. *)
Fixpoint lookup (k : string) (fs : document) : option bson :=
  match fs with
  | [] => None
  | (k', v) :: fs' => if String.eqb k k' then Some v else lookup k fs'
  end.

(** [$getField]: missing input gives missing, [null] and the deprecated
    [undefined] give [null], a document gives the field (missing when
    absent), anything else gives missing. *)
Definition getField (field : string) (input : option bson) : option bson :=
  match input with
  | None => None
  | Some Null => Some Null
  | Some (Other Undefined _) => Some Null
  | Some (Doc fs) => lookup field fs
  | Some _ => None
  end.

(** [$isArray] *)
Definition isArray (v : option bson) : bool :=
  match v with
  | Some (Arr _) => true
  | _ => false
  end.

(** The elements of an array, for the operators that are only reached
    behind an [$isArray] test ([$size], [$arrayElemAt]). *)
Definition elements (v : option bson) : list bson :=
  match v with
  | Some (Arr l) => l
  | _ => []
  end.

(** [$size]: a 32-bit integer, as an array inside a BSON document (of
    16 megabytes at most) has far fewer than [2^31] elements. *)
Definition size (v : option bson) : Z :=
  Z.of_nat (List.length (elements v)).

(** [$arrayElemAt] at an index inside the array. *)
Definition arrayElemAt (v : option bson) (i : Z) : bson :=
  nth (Z.to_nat i) (elements v) Null.

(** [$objectToArray]: the key/value pairs of a document, [null] for
    [null] and [undefined], and an error that aborts the evaluation for any
    other value. *)
Inductive pairs : Type :=
| Pairs (kv : document)
| NullPairs
| Failure.

Definition objectToArray (v : bson) : pairs :=
  match v with
  | Doc fs => Pairs fs
  | Null => NullPairs
  | Other Undefined _ => NullPairs
  | _ => Failure
  end.

(** [$arrayToObject]: fields are set one after the other; setting a name
    that is already there replaces its value in place, so that the last
    occurrence of a repeated name gives the value. *)
Fixpoint setField (k : string) (v : bson) (d : document) : document :=
  match d with
  | [] => [(k, v)]
  | (k', v') :: d' =>
      if String.eqb k k' then (k', v) :: d' else (k', v') :: setField k v d'
  end.

Definition arrayToObject (kv : document) : document :=
  fold_left (fun d e => setField (fst e) (snd e) d) kv [].

(** The values of [$range: [a, b]]: the integers from [a] up to, and
    without, [b]. *)
Definition range_values (a b : Z) : list Z :=
  map (fun k => a + Z.of_nat k) (seq 0 (Z.to_nat (b - a))).

(** [$range: [a, b]]: both bounds have to be representable as 32-bit
    integers, or the evaluation is aborted. *)
Definition range (a b : Z) : option (list Z) :=
  if int32 a && int32 b then Some (range_values a b) else None.

(** [$toString] of an integer: its decimal notation. *)
Definition toString (n : Z) : string :=
  NilZero.string_of_int (Z.to_int n).

(** [$slice: [l, position, n]] for a position and a count that are not
    negative. *)
Definition slice {A : Type} (l : list A) (position n : Z) : list A :=
  firstn (Z.to_nat n) (skipn (Z.to_nat position) l).

(** The value of a field of an emitted element. *)
Definition field (k : string) (r : bson) : option bson :=
  match r with
  | Doc fs => lookup k fs
  | _ => None
  end.

(** A record with a single field, as the overrun warning is. *)
Definition single_field (r : bson) : bool :=
  match r with
  | Doc [_] => true
  | _ => false
  end.

(** Whether a value is an array whose elements are all documents. *)
Definition sequence_of_documents (v : option bson) : bool :=
  match v with
  | Some (Arr l) =>
      forallb (fun c => match c with Doc _ => true | _ => false end) l
  | _ => false
  end.

(** ** Paths *)

(** Whether a string has the separator of paths in it. *)
Fixpoint has_underscore (s : string) : bool :=
  match s with
  | EmptyString => false
  | String c s' => Ascii.eqb c "_"%char || has_underscore s'
  end.

(** The path [s] goes through the path [p]: it is [p], a separator, and
    more. *)
Definition extends (p s : string) : Prop :=
  exists t, s = (p ++ String "_"%char t)%string.

(** The number of separators in a path. *)
Fixpoint count_underscore (s : string) : nat :=
  match s with
  | EmptyString => 0%nat
  | String c s' =>
      ((if Ascii.eqb c "_"%char then 1 else 0) + count_underscore s')%nat
  end.

(** The path of the entry reached from the document through the elements
    with the indices [ks], outermost first. *)
Definition path_of (ks : list nat) : string :=
  fold_left (fun p k => (p ++ "_" ++ toString (Z.of_nat k))%string) ks "0".

(** ** The traversal state *)

Record node : Type := Node {
  _depth : Z;
  _idx : string;
  subdoc : bson
}.

Record acc : Type := Acc {
  result : list bson;
  subLevelsToInspect : list node
}.

(** A work-list entry and the accumulator as the BSON documents they are. *)
Definition node_value (e : node) : bson :=
  Doc [("_depth", Int (_depth e)); ("_idx", Str (_idx e));
       ("subdoc", subdoc e)].

Definition acc_value (a : acc) : bson :=
  Doc [("result", Arr (result a));
       ("subLevelsToInspect", Arr (map node_value (subLevelsToInspect a)))].

Definition WARNING : bson :=
  Doc [("WARNING",
        Str "The 'maxElements' parameter for graphDescend() was not set to a large enough value to fully descend a nested document")].

(** The example document of the README. *)
Definition sample : document :=
  [("elmntId", Str "0"); ("val", Int 999);
   ("properties", Arr [
      Doc [("elmntId", Str "0.0"); ("val", Int 111);
           ("children", Arr [
              Doc [("elmntId", Str "0.0.0"); ("val", Int 123)];
              Doc [("elmntId", Str "0.0.1"); ("val", Int 456); ("children", Int 5)];
              Doc [("elmntId", Str "0.0.2"); ("val", Int 456);
                   ("children", Arr [
                      Doc [("elmntId", Str "0.0.2.0"); ("val", Int 333)];
                      Doc [("elmntId", Str "0.0.2.1"); ("val", Int 222); ("children", Str "it")];
                      Doc [("elmntId", Str "0.0.2.2"); ("val", Int 111); ("children", Arr [])]])]])];
      Doc [("elmntId", Str "0.1"); ("val", Int 222);
           ("children", Arr [
              Doc [("elmntId", Str "0.1.0"); ("val", Int 789); ("children", Doc [("x", Int 1)])];
              Doc [("elmntId", Str "0.1.1"); ("val", Int 120); ("children", Arr [])];
              Doc [("elmntId", Str "0.1.2"); ("val", Int 22); ("children", Null)]])]])].

(** A document with two children and nothing below them. *)
Definition two_children : document :=
  [("name", Str "r");
   ("children", Arr [Doc [("name", Str "a")]; Doc [("name", Str "b")]])].

(** A document with an object id, a number beyond 32 bits, a double and
    a date among its fields. *)
Definition typed_fields : document :=
  [("_id", Other ObjectId
             [Byte.x65; Byte.x4a; Byte.x1b; Byte.x2c; Byte.x3d; Byte.x4e;
              Byte.x5f; Byte.x60; Byte.x71; Byte.x82; Byte.x93; Byte.xa4]);
   ("n", Int 3000000000);
   ("ratio", Other Double
               [Byte.x00; Byte.x00; Byte.x00; Byte.x00; Byte.x00; Byte.x00;
                Byte.xf8; Byte.x3f]);
   ("since", Other Date
               [Byte.x00; Byte.x00; Byte.x00; Byte.x00; Byte.x00; Byte.x00;
                Byte.x00; Byte.x00]);
   ("count", Int 7);
   ("children", Arr [])].

(** ** The plan *)

Section Plan.

(** The arguments of [graphDescend]; left out, they are ["children"],
    [null], [25], [[]], [100] and [false]. *)
Variable connectToField : string.
Variable startWith_arg : option string.
Variable maxElements : Z.
Variable omitFields : list string.
Variable maxDepth_arg : Z.
Variable showSchema : bool.

(** [startWith = startWith ? startWith : connectToField]: [null] and the
    empty string are falsy. *)
Definition startWith : string :=
  match startWith_arg with
  | Some (String c s) => String c s
  | _ => connectToField
  end.

(** The [$let] variable [maxDepth]. *)
Definition maxDepth : Z :=
  if (maxDepth_arg <? 0) || (maxDepth_arg >? 100) then 100 else maxDepth_arg.

(** The branching field selected at iteration index [this]. *)
Definition currChildFieldName (this : Z) : string :=
  if this <=? 0 then startWith else connectToField.

(** The [cond] of the [$filter]: inside it [$$this] is the key/value pair. *)
Definition kept (this : Z) (pair : string * bson) : bool :=
  negb (String.eqb (fst pair) (currChildFieldName this))
  && negb (existsb (String.eqb (fst pair)) omitFields).

(** The [schema] entry: name and type tag of every field of the
    sub-document. *)
Definition schema (kv : document) : bson :=
  Arr (map (fun field =>
              Doc [("fieldname", Str (fst field));
                   ("type", Str (bson_type (snd field)))]) kv).

(** The argument of [$arrayToObject]. *)
Definition element_pairs (this : Z) (currLevelElement : node)
    (kv : document) : document :=
  [("_ord", Int this)]
  ++ [("_depth", Int (_depth currLevelElement))]
  ++ [("_idx", Str (_idx currLevelElement))]
  ++ (if showSchema then [("schema", schema kv)] else [])
  ++ map (fun element => (fst element, snd element)) (filter (kept this) kv).

(** The element built for a work-list entry.  [$map], [$filter],
    [$concatArrays] and [$arrayToObject] all give [null] for a [null]
    input, so a [null] sub-document gives a [null] element. *)
Definition element (this : Z) (currLevelElement : node) : option bson :=
  match objectToArray (subdoc currLevelElement) with
  | Pairs kv => Some (Doc (arrayToObject (element_pairs this currLevelElement kv)))
  | NullPairs => Some Null
  | Failure => None
  end.

(** What one step adds to [result]. *)
Definition emitted (this : Z) (inspect : list node) : option (list bson) :=
  let currLevelElement := hd_error inspect in
  match currLevelElement with
  | Some e =>
      if this >=? maxElements then Some [WARNING]
      else match element this e with
           | Some d => Some [d]
           | None => None
           end
  | None => Some []
  end.

(** The [result] field of the next accumulator. *)
Definition result_step (value : acc) (this : Z) : option (list bson) :=
  match emitted this (subLevelsToInspect value) with
  | Some l => Some (result value ++ l)
  | None => None
  end.

(** The children pushed for the entry [e] inspected at index [this].  The
    bound of the inner [$range] is the [$size] of an array, which is a
    32-bit integer: the range is its values. *)
Definition children (this : Z) (e : node) : list node :=
  let currLevelChildren :=
    if this <=? 0 then getField startWith (Some (subdoc e))
    else getField connectToField (Some (subdoc e)) in
  let currLevelIdx := _idx e in
  let newDepthNumber := _depth e + 1 in
  if isArray currLevelChildren && (newDepthNumber <=? maxDepth) then
    fold_left
      (fun value this =>
         value ++ [ {| _depth := newDepthNumber;
                       _idx := (currLevelIdx ++ "_" ++ toString this)%string;
                       subdoc := arrayElemAt currLevelChildren this |} ])
      (range_values 0 (size currLevelChildren)) []
  else [].

(** The [subLevelsToInspect] field of the next accumulator.  With an empty
    work-list [$first] is missing, so is every [$getField] on it, and
    [$isArray] of a missing value is false. *)
Definition subLevelsToInspect_step (inspect : list node) (this : Z)
    : list node :=
  let subLevelsToInspectSize := Z.of_nat (List.length inspect) in
  (if subLevelsToInspectSize >? 0
   then slice inspect 1 (subLevelsToInspectSize + 1)
   else [])
  ++ match hd_error inspect with
     | Some e => children this e
     | None => []
     end.

(** The [in] of the outer [$reduce]. *)
Definition step (value : acc) (this : Z) : option acc :=
  match result_step value this with
  | Some r =>
      Some {| result := r;
              subLevelsToInspect :=
                subLevelsToInspect_step (subLevelsToInspect value) this |}
  | None => None
  end.

(** The document the plan is evaluated against. *)
Variable ROOT : document.

Definition initialValue : acc :=
  {| result := [];
     subLevelsToInspect := [ {| _depth := 0; _idx := "0"; subdoc := Doc ROOT |} ] |}.

(** The outer [$reduce]; an error in its [input] or in one step is the
    outcome of the whole. *)
Definition reduce : option acc :=
  match range 0 (maxElements + 1) with
  | Some input =>
      fold_left
        (fun value this =>
           match value with
           | Some a => step a this
           | None => None
           end)
        input
        (Some initialValue)
  | None => None
  end.

(** The value of the expression returned by [graphDescend] on [ROOT]. *)
Definition graphDescend : option bson :=
  option_map acc_value reduce.

(** ** The run, step by step

    Definitions used to state what the plan computes: the work-list before
    each step, the entries that are inspected, and the nodes of the
    document that the traversal can reach. *)

(** The work-list before step [n]. *)
Fixpoint worklist (n : nat) : list node :=
  match n with
  | O => subLevelsToInspect initialValue
  | S k => subLevelsToInspect_step (worklist k) (Z.of_nat k)
  end.

(** The entry inspected at step [n], if there is one. *)
Definition inspected (n : nat) : option node := hd_error (worklist n).

(** What step [n] adds to [result] when it does not fail. *)
Definition emission (n : nat) : list bson :=
  match emitted (Z.of_nat n) (worklist n) with
  | Some l => l
  | None => []
  end.

(** What the first [n] steps add to [result]. *)
Definition collected (n : nat) : list bson := flat_map emission (seq 0 n).

(** The steps that build an element: the index and the entry inspected,
    for the indices below [maxElements] at which the work-list is not
    empty. *)
Fixpoint visits (inspect : list node) (indices : list Z) : list (Z * node) :=
  match indices with
  | [] => []
  | this :: indices' =>
      match inspect with
      | [] => []
      | e :: _ =>
          (this, e) :: visits (subLevelsToInspect_step inspect this) indices'
      end
  end.

Definition visited : list (Z * node) :=
  visits (subLevelsToInspect initialValue) (range_values 0 maxElements).

(** The warning of the last step, at index [maxElements], when an entry is
    left to inspect there. *)
Definition overrun : list bson :=
  match Z.to_nat (maxElements + 1) with
  | O => []
  | S m => match worklist m with
           | [] => []
           | _ :: _ => [WARNING]
           end
  end.

(** The value of the branching field of an entry inspected at index [this]. *)
Definition branch (this : Z) (e : node) : option bson :=
  getField (currChildFieldName this) (Some (subdoc e)).

(** The entry of the [k]-th element of the array [cs] of [e]. *)
Definition child (e : node) (cs : list bson) (k : nat) : node :=
  {| _depth := _depth e + 1;
     _idx := (_idx e ++ "_" ++ toString (Z.of_nat k))%string;
     subdoc := nth k cs Null |}.

(** The entries pushed when [e] is inspected at index [this], in closed
    form. *)
Definition pushed (this : Z) (e : node) : list node :=
  match branch this e with
  | Some (Arr cs) =>
      if _depth e + 1 <=? maxDepth
      then map (child e cs) (seq 0 (List.length cs))
      else []
  | _ => []
  end.

(** Every entry that has entered the work-list before step [n], in the
    order of entry: the work-list before step [n] is what is left of it
    after its first [n] entries. *)
Fixpoint discovered (n : nat) : list node :=
  match n with
  | O => subLevelsToInspect initialValue
  | S k =>
      discovered k
      ++ match nth_error (discovered k) k with
         | Some e => pushed (Z.of_nat k) e
         | None => []
         end
  end.

(** The number of nodes in the tree below a value, itself included, going
    down [levels] levels through arrays under the branching field: [field]
    at this node, [connectToField] below it.  Every element of such an
    array is a node, whether it is a document or not. *)
Fixpoint subtree_size (levels : nat) (field : string) (v : bson) : nat :=
  match levels with
  | O => 1%nat
  | S levels' =>
      S (match getField field (Some v) with
         | Some (Arr cs) =>
             list_sum (map (subtree_size levels' connectToField) cs)
         | _ => 0%nat
         end)
  end.

(** The number of nodes reachable within [maxDepth]. *)
Definition reachable : nat :=
  subtree_size (Z.to_nat maxDepth) startWith (Doc ROOT).

(** The nodes as the specification counts them: a node has children only
    when its branching field is a sequence of documents. *)
Fixpoint spec_subtree_size (levels : nat) (field : string) (v : bson) : nat :=
  match levels with
  | O => 1%nat
  | S levels' =>
      S (if sequence_of_documents (getField field (Some v))
         then list_sum (map (spec_subtree_size levels' connectToField)
                          (elements (getField field (Some v))))
         else 0%nat)
  end.

Definition spec_reachable : nat :=
  spec_subtree_size (Z.to_nat maxDepth) startWith (Doc ROOT).

(** The nodes still to be counted for an entry inspected at index [this]. *)
Definition weight (this : Z) (e : node) : nat :=
  subtree_size (Z.to_nat (maxDepth - _depth e)) (currChildFieldName this)
    (subdoc e).

(** The accumulator after [n] steps of the outer [$reduce]. *)
Fixpoint run (n : nat) : option acc :=
  match n with
  | O => Some initialValue
  | S k => match run k with
           | Some a => step a (Z.of_nat k)
           | None => None
           end
  end.

(** The traversal's own key/value pairs at the head of an element. *)
Definition metadata (this : Z) (e : node) (kv : document) : document :=
  [("_ord", Int this); ("_depth", Int (_depth e)); ("_idx", Str (_idx e))]
  ++ (if showSchema then [("schema", schema kv)] else []).

(** The element of the step takes a field named [name] from its
    sub-document: the sub-document is a document and a field of that name
    passes the [$filter]. *)
Definition inherits (name : string) (ie : Z * node) : bool :=
  match subdoc (snd ie) with
  | Doc fs =>
      existsb (fun pair => String.eqb (fst pair) name
                           && kept (fst ie) pair) fs
  | _ => false
  end.

(** The sub-document of the step is a document, and none of its fields
    that pass the [$filter] is named [name]. *)
Definition labelled (name : string) (ie : Z * node) : bool :=
  match subdoc (snd ie) with
  | Doc fs =>
      negb (existsb (fun pair => String.eqb (fst pair) name
                                 && kept (fst ie) pair) fs)
  | _ => false
  end.

(** The nodes still to be counted for a work-list inspected from index
    [this] on. *)
Definition pending (this : Z) (w : list node) : nat :=
  list_sum (map (weight this) w).

(** The element of the step can be built: its sub-document is a document
    or [null] (or the deprecated [undefined], which the engine takes for
    [null]). *)
Definition evaluable (ie : Z * node) : bool :=
  match subdoc (snd ie) with
  | Doc _ | Null | Other Undefined _ => true
  | _ => false
  end.

(** The work-list entry of the document itself. *)
Definition root : node := {| _depth := 0; _idx := "0"; subdoc := Doc ROOT |}.

(** The relation between an element of [result] and the step that built it. *)
Definition built (r : bson) (ie : Z * node) : Prop :=
  element (fst ie) (snd ie) = Some r.

(** Depths never decrease along a list of entries. *)
Definition depth_sorted (l : list node) : Prop :=
  forall i j a b, (i <= j)%nat ->
    nth_error l i = Some a -> nth_error l j = Some b -> _depth a <= _depth b.

(** No entry of [l] is more than one level below the [n]-th one. *)
Definition depth_bounded (n : nat) (l : list node) : Prop :=
  forall e x, nth_error l n = Some e -> In x l -> _depth x <= _depth e + 1.

(** The branching field read at a node that is [ks] below the document. *)
Definition level_field (ks : list nat) : string :=
  match ks with
  | [] => startWith
  | _ :: _ => connectToField
  end.

(** The value reached from [v] through the elements with the indices [ks]
    of the arrays under the branching field: [field] at [v],
    [connectToField] below it. *)
Fixpoint descend (field : string) (v : bson) (ks : list nat) : option bson :=
  match ks with
  | [] => Some v
  | k :: ks' =>
      match getField field (Some v) with
      | Some (Arr cs) =>
          match nth_error cs k with
          | Some c => descend connectToField c ks'
          | None => None
          end
      | _ => None
      end
  end.

(** ** Lists and strings *)

Lemma fold_left_snoc_map {A B : Type} (f : A -> B) (l : list A) (l0 : list B) :
  fold_left (fun value this => value ++ [f this]) l l0 = l0 ++ map f l.
Proof.
  revert l0; induction l as [|x l IH]; intros l0; simpl.
  - now rewrite app_nil_r.
  - rewrite IH, <- app_assoc. reflexivity.
Qed.

Lemma range_0 (n : Z) :
  range_values 0 n = map Z.of_nat (seq 0 (Z.to_nat n)).
Proof.
  unfold range_values. rewrite Z.sub_0_r. apply map_ext. intros k. reflexivity.
Qed.

Lemma geb_false (a b : Z) : a < b -> (a >=? b) = false.
Proof. intros H. rewrite Z.geb_leb. now apply Z.leb_gt. Qed.

Lemma geb_true (a b : Z) : b <= a -> (a >=? b) = true.
Proof. intros H. rewrite Z.geb_leb. now apply Z.leb_le. Qed.

Lemma map_nth_seq {A : Type} (d : A) (l : list A) :
  map (fun k => nth k l d) (seq 0 (List.length l)) = l.
Proof.
  induction l as [|x l IH]; simpl; [reflexivity|].
  rewrite <- seq_shift, map_map. simpl. now rewrite IH.
Qed.

Lemma has_underscore_append (a b : string) :
  has_underscore (a ++ b) = has_underscore a || has_underscore b.
Proof.
  induction a as [|c a IH]; [reflexivity|].
  cbn [append has_underscore]. now rewrite IH, orb_assoc.
Qed.

Lemma uint_no_underscore (d : Decimal.uint) :
  has_underscore (NilEmpty.string_of_uint d) = false.
Proof. induction d; simpl; auto. Qed.

Lemma toString_no_underscore (n : Z) : has_underscore (toString n) = false.
Proof.
  unfold toString, NilZero.string_of_int, NilZero.string_of_uint.
  destruct (Z.to_int n) as [d|d]; destruct d; try reflexivity;
    simpl; apply uint_no_underscore.
Qed.

Lemma toString_inj (n m : Z) : toString n = toString m -> n = m.
Proof.
  assert (Hnil : forall z, Z.to_int z <> Decimal.Pos Decimal.Nil
                           /\ Z.to_int z <> Decimal.Neg Decimal.Nil).
  { intros z. split; intros H; pose proof (f_equal Z.of_int H) as H';
      rewrite DecimalZ.of_to in H'; cbn in H'; subst z; discriminate H. }
  unfold toString. intros H.
  apply (f_equal NilZero.int_of_string) in H.
  rewrite !NilZero.isi in H by apply Hnil.
  injection H as H. now apply DecimalZ.to_int_inj.
Qed.

Lemma append_assoc (a b c : string) :
  ((a ++ b) ++ c)%string = (a ++ (b ++ c))%string.
Proof. induction a as [|x a IH]; [reflexivity|]. cbn. now rewrite IH. Qed.

Lemma append_inv_head (a b c : string) :
  (a ++ b)%string = (a ++ c)%string -> b = c.
Proof.
  induction a as [|x a IH]; [trivial|]. cbn. intros H. injection H as H. auto.
Qed.

(** Two ways of cutting a path before a last, separator-free, component. *)
Lemma path_split (a b d t : string) :
  (a ++ String "_" d)%string = (b ++ String "_" t)%string ->
  has_underscore d = false ->
  (a = b /\ d = t) \/ extends b a.
Proof.
  revert b; induction a as [|c a IH]; intros [|c' b] H Hd; cbn in H.
  - injection H as ->. now left.
  - injection H as <- ->. rewrite has_underscore_append in Hd.
    cbn in Hd. rewrite orb_true_r in Hd. discriminate.
  - injection H as -> <-. right. now exists a.
  - injection H as <- H. destruct (IH b H Hd) as [[-> ->]|(u & ->)].
    + now left.
    + right. now exists u.
Qed.

Lemma path_split_eq (a b d t : string) :
  (a ++ String "_" d)%string = (b ++ String "_" t)%string ->
  has_underscore d = false -> has_underscore t = false ->
  a = b /\ d = t.
Proof.
  intros H Hd Ht. destruct (path_split a b d t H Hd) as [?|(u & ->)];
    [assumption|].
  rewrite append_assoc in H. apply append_inv_head in H. cbn in H.
  injection H as H. rewrite <- H, has_underscore_append in Ht.
  cbn in Ht. rewrite orb_true_r in Ht. discriminate.
Qed.

(** ** Documents built by [$arrayToObject] *)

Lemma lookup_app (k : string) (l l' : document) :
  lookup k (l ++ l') = match lookup k l with
                       | Some v => Some v
                       | None => lookup k l'
                       end.
Proof.
  induction l as [|[k' v] l IH]; [reflexivity|]. cbn.
  now destruct (String.eqb k k').
Qed.

Lemma lookup_setField (k k' : string) (v : bson) (d : document) :
  lookup k (setField k' v d) = if String.eqb k k' then Some v else lookup k d.
Proof.
  induction d as [|[k0 v0] d IH]; cbn; [reflexivity|].
  destruct (String.eqb_spec k' k0) as [->|Hne]; cbn.
  - now destruct (String.eqb k k0).
  - rewrite IH. destruct (String.eqb_spec k k0) as [->|]; [|reflexivity].
    destruct (String.eqb_spec k0 k'); [congruence|reflexivity].
Qed.

Lemma lookup_fold_setField (k : string) (kv d : document) :
  lookup k (fold_left (fun d e => setField (fst e) (snd e) d) kv d)
  = match lookup k (rev kv) with
    | Some v => Some v
    | None => lookup k d
    end.
Proof.
  revert d; induction kv as [|[k' v'] kv IH]; intros d; [reflexivity|].
  cbn [fold_left rev fst snd]. rewrite IH, lookup_app, lookup_setField.
  destruct (lookup k (rev kv)); [reflexivity|]. cbn.
  now destruct (String.eqb k k').
Qed.

(** The value under a name is the one of its last occurrence. *)
Lemma lookup_arrayToObject (k : string) (kv : document) :
  lookup k (arrayToObject kv) = lookup k (rev kv).
Proof.
  unfold arrayToObject. rewrite lookup_fold_setField.
  now destruct (lookup k (rev kv)).
Qed.

Lemma lookup_None (k : string) (l : document) :
  (forall v, ~ In (k, v) l) -> lookup k l = None.
Proof.
  induction l as [|[k' v'] l IH]; intros H; [reflexivity|]. cbn.
  destruct (String.eqb_spec k k') as [->|].
  - exfalso. apply (H v'). now left.
  - apply IH. intros v Hv. apply (H v). now right.
Qed.

Lemma lookup_filter_true (f : string * bson -> bool) (k : string)
    (l : document) :
  (forall v, f (k, v) = true) -> lookup k (filter f l) = lookup k l.
Proof.
  intros H. induction l as [|[k' v'] l IH]; [reflexivity|]. cbn.
  destruct (String.eqb_spec k k') as [->|Hne].
  - rewrite H. cbn. now rewrite String.eqb_refl.
  - destruct (f (k', v')); [|assumption]. cbn.
    destruct (String.eqb_spec k k'); [congruence|assumption].
Qed.

Lemma lookup_filter_false (f : string * bson -> bool) (k : string)
    (l : document) :
  (forall v, f (k, v) = false) -> lookup k (filter f l) = None.
Proof.
  intros H. apply lookup_None. intros v Hv. apply filter_In in Hv.
  destruct Hv as [_ Hv]. rewrite H in Hv. discriminate.
Qed.

Lemma map_pair_eta (l : document) :
  map (fun element => (fst element, snd element)) l = l.
Proof.
  induction l as [|[k v] l IH]; [reflexivity|]. cbn. now rewrite IH.
Qed.

Lemma length_fold_setField (kv d : document) :
  (List.length d
   <= List.length (fold_left (fun d e => setField (fst e) (snd e) d) kv d))%nat.
Proof.
  assert (Hset : forall k v d', (List.length d'
                                 <= List.length (setField k v d'))%nat).
  { intros k v d'. induction d' as [|[k0 v0] d' IH]; cbn; [lia|].
    destruct (String.eqb k k0); cbn; lia. }
  revert d; induction kv as [|e kv IH]; intros d; cbn [fold_left]; [lia|].
  specialize (IH (setField (fst e) (snd e) d)).
  specialize (Hset (fst e) (snd e) d). lia.
Qed.

(** ** One step of the work-list *)

Lemma children_pushed (this : Z) (e : node) : children this e = pushed this e.
Proof.
  unfold children, pushed, branch, currChildFieldName.
  destruct (this <=? 0).
  - destruct (getField startWith (Some (subdoc e))) as [[| | | |cs| |]|]; simpl;
      try reflexivity.
    destruct (_depth e + 1 <=? maxDepth); [|reflexivity].
    rewrite fold_left_snoc_map. unfold size. simpl. rewrite range_0, Nat2Z.id.
    rewrite map_map. apply map_ext. intros k. unfold child, arrayElemAt.
    simpl. now rewrite Nat2Z.id.
  - destruct (getField connectToField (Some (subdoc e))) as [[| | | |cs| |]|];
      simpl; try reflexivity.
    destruct (_depth e + 1 <=? maxDepth); [|reflexivity].
    rewrite fold_left_snoc_map. unfold size. simpl. rewrite range_0, Nat2Z.id.
    rewrite map_map. apply map_ext. intros k. unfold child, arrayElemAt.
    simpl. now rewrite Nat2Z.id.
Qed.

Lemma step_cons (e : node) (w : list node) (this : Z) :
  subLevelsToInspect_step (e :: w) this = w ++ pushed this e.
Proof.
  unfold subLevelsToInspect_step. cbn [hd_error].
  rewrite children_pushed. f_equal.
  replace (Z.of_nat (List.length (e :: w)) >? 0) with true
    by (symmetry; apply Z.gtb_lt; simpl List.length; lia).
  unfold slice. change (Z.to_nat 1) with 1%nat. cbn [skipn].
  apply firstn_all2. simpl List.length. lia.
Qed.

Lemma worklist_S_cons (n : nat) (e : node) (w : list node) :
  worklist n = e :: w -> worklist (S n) = w ++ pushed (Z.of_nat n) e.
Proof. intros H. simpl. rewrite H. apply step_cons. Qed.

Lemma worklist_nil_S (n : nat) : worklist n = [] -> worklist (S n) = [].
Proof. intros H. simpl. now rewrite H. Qed.

Lemma worklist_nil_le (n m : nat) :
  (n <= m)%nat -> worklist n = [] -> worklist m = [].
Proof.
  intros Hle H. induction Hle; [assumption|]. now apply worklist_nil_S.
Qed.

Lemma inspected_le (n m : nat) (e : node) :
  (n <= m)%nat -> inspected m = Some e -> exists e', inspected n = Some e'.
Proof.
  intros Hle H. unfold inspected in *.
  destruct (worklist n) as [|e' w] eqn:E.
  - rewrite (worklist_nil_le n m Hle E) in H. discriminate.
  - now exists e'.
Qed.

(** ** The fold, step by step *)

Lemma reduce_guard :
  reduce = if int32 (maxElements + 1)
           then run (Z.to_nat (maxElements + 1))
           else None.
Proof.
  unfold reduce, range. change (int32 0) with true. cbn [andb].
  destruct (int32 (maxElements + 1)); [|reflexivity]. rewrite range_0.
  induction (Z.to_nat (maxElements + 1)) as [|n IH]; [reflexivity|].
  rewrite seq_S, map_app, fold_left_app, IH. reflexivity.
Qed.

Lemma reduce_run (a : acc) :
  reduce = Some a -> run (Z.to_nat (maxElements + 1)) = Some a.
Proof.
  rewrite reduce_guard. now destruct (int32 (maxElements + 1)).
Qed.

Lemma reduce_int32 (a : acc) :
  reduce = Some a -> int32 (maxElements + 1) = true.
Proof.
  rewrite reduce_guard. now destruct (int32 (maxElements + 1)).
Qed.

Lemma run_reduce :
  int32 (maxElements + 1) = true ->
  reduce = run (Z.to_nat (maxElements + 1)).
Proof. intros H. now rewrite reduce_guard, H. Qed.

Lemma int32_spec (n : Z) :
  int32 n = true <-> -2147483648 <= n <= 2147483647.
Proof. unfold int32. rewrite andb_true_iff, !Z.leb_le. reflexivity. Qed.

Lemma collected_S (n : nat) : collected (S n) = collected n ++ emission n.
Proof.
  unfold collected. rewrite seq_S, flat_map_app. simpl. now rewrite app_nil_r.
Qed.

Lemma run_spec (n : nat) (a : acc) :
  run n = Some a ->
  result a = collected n /\ subLevelsToInspect a = worklist n
  /\ forall k, (k < n)%nat -> emitted (Z.of_nat k) (worklist k) <> None.
Proof.
  revert a; induction n as [|n IH]; intros a H; simpl in H.
  - injection H as <-. repeat split. intros k Hk. lia.
  - destruct (run n) as [a0|]; [|discriminate].
    destruct (IH a0 eq_refl) as (Hr & Hw & Hk).
    unfold step, result_step in H. rewrite Hw in H.
    destruct (emitted (Z.of_nat n) (worklist n)) as [l|] eqn:E; [|discriminate].
    injection H as <-. cbn [result subLevelsToInspect].
    rewrite collected_S. unfold emission. rewrite E, Hr.
    repeat split. intros k Hlt.
    destruct (Nat.eq_dec k n) as [->|]; [congruence|]. apply Hk. lia.
Qed.

Lemma run_total (n : nat) :
  (forall k, (k < n)%nat -> emitted (Z.of_nat k) (worklist k) <> None) ->
  run n = Some {| result := collected n; subLevelsToInspect := worklist n |}.
Proof.
  induction n as [|n IH]; intros H; [reflexivity|].
  simpl. rewrite IH by (intros k Hk; apply H; lia).
  unfold step, result_step. cbn [result subLevelsToInspect].
  specialize (H n (Nat.lt_succ_diag_r n)).
  rewrite collected_S. unfold emission.
  destruct (emitted (Z.of_nat n) (worklist n)); [reflexivity|congruence].
Qed.

Lemma emission_nil (n : nat) : worklist n = [] -> emission n = [].
Proof. intros H. unfold emission, emitted. now rewrite H. Qed.

Lemma flat_map_emission_nil (len s : nat) :
  worklist s = [] -> flat_map emission (seq s len) = [].
Proof.
  revert s; induction len as [|len IH]; intros s H; [reflexivity|].
  simpl. rewrite (emission_nil s H). apply IH. now apply worklist_nil_S.
Qed.

Lemma collected_visits (len s : nat) :
  (forall k, (s <= k < s + len)%nat ->
             emitted (Z.of_nat k) (worklist k) <> None) ->
  (forall k, (s <= k < s + len)%nat -> Z.of_nat k < maxElements) ->
  Forall2 built (flat_map emission (seq s len))
    (visits (worklist s) (map Z.of_nat (seq s len))).
Proof.
  revert s; induction len as [|len IH]; intros s Hok Hlt; [constructor|].
  cbn [seq map flat_map visits].
  destruct (worklist s) as [|e w] eqn:E.
  - rewrite (emission_nil s E), flat_map_emission_nil by now apply worklist_nil_S.
    constructor.
  - assert (Hs : (s <= s < s + S len)%nat) by lia.
    specialize (Hok s Hs) as Hs1. specialize (Hlt s Hs) as Hs2.
    unfold emission. unfold emitted in Hs1 |- *.
    rewrite E in Hs1 |- *. cbn [hd_error] in Hs1 |- *.
    rewrite (geb_false _ _ Hs2) in Hs1 |- *.
    destruct (element (Z.of_nat s) e) as [d|] eqn:Ed; [|congruence].
    cbn [app]. constructor; [exact Ed|].
    rewrite <- E. change (subLevelsToInspect_step (worklist s) (Z.of_nat s))
      with (worklist (S s)).
    apply IH; intros k Hk; [apply Hok|apply Hlt]; lia.
Qed.

Lemma nth_error_visits (len s j : nat) (i : Z) (e : node) :
  nth_error (visits (worklist s) (map Z.of_nat (seq s len))) j = Some (i, e)
  <-> i = Z.of_nat (s + j) /\ (j < len)%nat /\ inspected (s + j) = Some e.
Proof.
  revert s j; induction len as [|len IH]; intros s j.
  - cbn [seq map visits]. destruct j; simpl; split; try discriminate;
      intros (_ & H & _); lia.
  - cbn [seq map visits]. destruct (worklist s) as [|e0 w] eqn:E.
    + split; [destruct j; discriminate|]. intros (_ & _ & H).
      unfold inspected in H.
      rewrite (worklist_nil_le s (s + j)) in H by (assumption || lia).
      discriminate.
    + destruct j as [|j]; cbn [nth_error].
      * rewrite Nat.add_0_r. unfold inspected. rewrite E. cbn [hd_error].
        split.
        -- intros H. injection H as <- <-. repeat split. lia.
        -- intros (-> & _ & H). now injection H as <-.
      * rewrite <- E. change (subLevelsToInspect_step (worklist s) (Z.of_nat s))
          with (worklist (S s)).
        rewrite IH. replace (S s + j)%nat with (s + S j)%nat by lia.
        split; intros (H1 & H2 & H3); repeat split; try assumption; lia.
Qed.

Lemma nth_error_visited (j : nat) (i : Z) (e : node) :
  nth_error visited j = Some (i, e)
  <-> i = Z.of_nat j /\ Z.of_nat j < maxElements /\ inspected j = Some e.
Proof.
  unfold visited. rewrite range_0.
  change (subLevelsToInspect initialValue) with (worklist 0).
  rewrite nth_error_visits. cbn [Nat.add].
  split; intros (H1 & H2 & H3); repeat split; try assumption; lia.
Qed.

Lemma overrun_emission (m : nat) :
  Z.of_nat m = maxElements -> emission m = overrun.
Proof.
  intros H. unfold overrun, emission, emitted.
  replace (Z.to_nat (maxElements + 1)) with (S m) by lia.
  destruct (worklist m); [reflexivity|]. cbn [hd_error].
  rewrite geb_true by lia. reflexivity.
Qed.

(** The shape of the accumulator the [$reduce] ends with. *)
Lemma reduce_shape (a : acc) :
  reduce = Some a ->
  exists rs, result a = rs ++ overrun /\ Forall2 built rs visited
             /\ subLevelsToInspect a = worklist (Z.to_nat (maxElements + 1)).
Proof.
  intros H. apply reduce_run in H.
  destruct (run_spec _ _ H) as (Hr & Hw & Hok).
  destruct (Z.to_nat (maxElements + 1)) as [|m] eqn:Em.
  - exists []. rewrite Hr. unfold overrun, visited. rewrite Em, range_0.
    replace (Z.to_nat maxElements) with 0%nat by lia.
    repeat split; [constructor|assumption].
  - exists (collected m). rewrite Hr, collected_S, overrun_emission by lia.
    repeat split; [|assumption].
    unfold visited. rewrite range_0. replace (Z.to_nat maxElements) with m by lia.
    apply collected_visits; intros k Hk; [apply Hok|]; lia.
Qed.

(** ** The order of discovery *)

Lemma skipn_cons_nth {A : Type} (k : nat) (l : list A) (e : A) (w : list A) :
  skipn k l = e :: w ->
  nth_error l k = Some e /\ skipn (S k) l = w /\ (k < List.length l)%nat.
Proof.
  revert l; induction k as [|k IH]; intros l H.
  - destruct l; [discriminate|]. simpl in H. injection H as -> ->.
    repeat split. simpl. lia.
  - destruct l as [|x l]; [discriminate|]. simpl in H.
    destruct (IH l H) as (H1 & H2 & H3). repeat split; try assumption.
    simpl. lia.
Qed.

Lemma worklist_discovered (n : nat) : worklist n = skipn n (discovered n).
Proof.
  induction n as [|n IH]; [reflexivity|].
  destruct (worklist n) as [|e w] eqn:E.
  - rewrite (worklist_nil_S n E). symmetry in IH.
    apply skipn_all_iff in IH. cbn [discovered].
    replace (nth_error (discovered n) n) with (@None node)
      by (symmetry; now apply nth_error_None).
    rewrite app_nil_r. apply eq_sym, skipn_all_iff. lia.
  - rewrite (worklist_S_cons n e w E). symmetry in IH.
    destruct (skipn_cons_nth _ _ _ _ IH) as (H1 & H2 & H3).
    cbn [discovered]. rewrite H1, skipn_app, H2.
    replace (S n - List.length (discovered n))%nat with 0%nat by lia.
    reflexivity.
Qed.

Lemma inspected_discovered (n : nat) :
  inspected n = nth_error (discovered n) n.
Proof.
  unfold inspected.
  rewrite worklist_discovered, <- nth_error_0, nth_error_skipn, Nat.add_0_r.
  reflexivity.
Qed.

Lemma discovered_S_none (n : nat) :
  nth_error (discovered n) n = None -> discovered (S n) = discovered n.
Proof. intros H. cbn [discovered]. rewrite H. apply app_nil_r. Qed.

Lemma discovered_S_some (n : nat) (e : node) :
  nth_error (discovered n) n = Some e ->
  discovered (S n) = discovered n ++ pushed (Z.of_nat n) e.
Proof. intros H. cbn [discovered]. now rewrite H. Qed.

Lemma discovered_prefix (n m : nat) :
  (n <= m)%nat -> exists l, discovered m = discovered n ++ l.
Proof.
  intros H; induction H as [|m H (l & IH)].
  - exists []. now rewrite app_nil_r.
  - cbn [discovered]. rewrite IH, <- app_assoc. eauto.
Qed.

Lemma discovered_stable (n m j : nat) (x : node) :
  (n <= m)%nat -> nth_error (discovered n) j = Some x ->
  nth_error (discovered m) j = Some x.
Proof.
  intros Hle H. destruct (discovered_prefix n m Hle) as (l & ->).
  rewrite nth_error_app1; [assumption|].
  apply nth_error_Some. congruence.
Qed.

Lemma discovered_exhausted (n m : nat) :
  (n <= m)%nat -> nth_error (discovered n) n = None ->
  discovered m = discovered n.
Proof.
  intros Hle H; induction Hle as [|m Hle IH]; [reflexivity|].
  rewrite discovered_S_none; [assumption|]. rewrite IH.
  apply nth_error_None. apply nth_error_None in H. lia.
Qed.

Lemma inspected_nth (j m : nat) :
  (j <= m)%nat -> inspected j = nth_error (discovered m) j.
Proof.
  intros Hle. rewrite inspected_discovered.
  destruct (nth_error (discovered j) j) as [x|] eqn:E.
  - symmetry. now apply (discovered_stable j m).
  - now rewrite (discovered_exhausted j m Hle E).
Qed.

(** ** What is pushed *)

Lemma maxDepth_range : 0 <= maxDepth <= 100.
Proof.
  unfold maxDepth.
  destruct (maxDepth_arg <? 0) eqn:E1; destruct (maxDepth_arg >? 100) eqn:E2;
    cbn [orb]; lia.
Qed.

Lemma nth_error_pushed (this : Z) (e x : node) (k : nat) :
  nth_error (pushed this e) k = Some x ->
  exists cs, branch this e = Some (Arr cs) /\ _depth e + 1 <= maxDepth
             /\ (k < List.length cs)%nat /\ x = child e cs k.
Proof.
  unfold pushed.
  destruct (branch this e) as [[| | | |cs| |]|]; try (destruct k; discriminate).
  destruct (_depth e + 1 <=? maxDepth) eqn:E; [|destruct k; discriminate].
  rewrite nth_error_map, nth_error_seq.
  destruct (Nat.ltb_spec k (List.length cs)); [|discriminate].
  cbn [option_map Nat.add]. intros Hx. injection Hx as <-.
  exists cs. apply Z.leb_le in E. auto.
Qed.

Lemma In_pushed (this : Z) (e x : node) :
  In x (pushed this e) ->
  exists cs k, branch this e = Some (Arr cs) /\ _depth e + 1 <= maxDepth
               /\ (k < List.length cs)%nat /\ x = child e cs k.
Proof.
  intros H. apply In_nth_error in H. destruct H as (k & H).
  destruct (nth_error_pushed _ _ _ _ H) as (cs & H'). eauto.
Qed.

Lemma pushed_depth (this : Z) (e x : node) :
  In x (pushed this e) -> _depth x = _depth e + 1 /\ _depth x <= maxDepth.
Proof.
  intros H. destruct (In_pushed _ _ _ H) as (cs & k & _ & Hd & _ & ->).
  cbn [child _depth]. lia.
Qed.

(** ** Depths along the order of discovery *)

Lemma discovered_depths (n : nat) :
  (forall x, In x (discovered n) -> 0 <= _depth x <= maxDepth)
  /\ (exists rest, discovered n = root :: rest
                   /\ forall x, In x rest -> 1 <= _depth x)
  /\ depth_sorted (discovered n)
  /\ depth_bounded n (discovered n).
Proof.
  pose proof maxDepth_range as Hmax.
  induction n as [|n (Hrange & (rest & Hroot & Hrest) & Hsort & Hbound)].
  - cbn [discovered initialValue subLevelsToInspect]. fold root.
    split; [|split; [|split]].
    + intros x [<-|[]]. cbn [root _depth]. lia.
    + exists []. split; [reflexivity|intros x []].
    + intros [|i] [|j] a b Hij Ha Hb; cbn [nth_error] in Ha, Hb;
        try (rewrite nth_error_nil in *); try discriminate; try lia.
      injection Ha as <-. injection Hb as <-. lia.
    + intros e x He [<-|[]]. cbn [nth_error] in He. injection He as <-. lia.
  - destruct (nth_error (discovered n) n) as [e|] eqn:E.
    2:{ rewrite (discovered_S_none n E).
        split; [assumption|]. split; [eauto|]. split; [assumption|].
        intros e x He _. apply nth_error_None in E.
        assert (nth_error (discovered n) (S n) = None)
          by (apply nth_error_None; lia).
        congruence. }
    rewrite (discovered_S_some n e E).
    assert (Hlen : (n < List.length (discovered n))%nat)
      by (apply nth_error_Some; congruence).
    assert (He : 0 <= _depth e <= maxDepth)
      by (apply Hrange; eapply nth_error_In; eassumption).
    assert (Hsort' : depth_sorted (discovered n ++ pushed (Z.of_nat n) e)).
    { intros i j a b Hij Ha Hb.
      destruct (Nat.lt_ge_cases i (List.length (discovered n))) as [Hi|Hi];
        destruct (Nat.lt_ge_cases j (List.length (discovered n))) as [Hj|Hj];
        [rewrite nth_error_app1 in Ha by assumption
        |rewrite nth_error_app1 in Ha by assumption
        |rewrite nth_error_app2 in Ha by assumption
        |rewrite nth_error_app2 in Ha by assumption];
        [rewrite nth_error_app1 in Hb by assumption
        |rewrite nth_error_app2 in Hb by assumption
        |rewrite nth_error_app1 in Hb by assumption
        |rewrite nth_error_app2 in Hb by assumption].
      - exact (Hsort i j a b Hij Ha Hb).
      - apply nth_error_In in Ha, Hb.
        apply (Hbound e a E) in Ha. apply pushed_depth in Hb. lia.
      - lia.
      - apply nth_error_In in Ha, Hb. apply pushed_depth in Ha, Hb. lia. }
    split; [|split; [|split]].
    + intros x Hx. apply in_app_or in Hx. destruct Hx as [Hx|Hx].
      * now apply Hrange.
      * apply pushed_depth in Hx. lia.
    + exists (rest ++ pushed (Z.of_nat n) e). rewrite Hroot. split; [reflexivity|].
      intros x Hx. apply in_app_or in Hx. destruct Hx as [Hx|Hx].
      * now apply Hrest.
      * apply pushed_depth in Hx. lia.
    + exact Hsort'.
    + intros e' x He' Hx.
      assert (_depth e <= _depth e').
      { apply (Hsort' n (S n) e e'); [lia| |assumption].
        now rewrite nth_error_app1. }
      apply in_app_or in Hx. destruct Hx as [Hx|Hx].
      * specialize (Hbound e x E Hx). lia.
      * apply pushed_depth in Hx. lia.
Qed.

(** ** Paths along the order of discovery *)

Lemma child_idx (e : node) (cs : list bson) (k : nat) :
  _idx (child e cs k) = (_idx e ++ String "_" (toString (Z.of_nat k)))%string.
Proof. reflexivity. Qed.

Lemma pushed_idx_NoDup (this : Z) (e : node) :
  NoDup (map _idx (pushed this e)).
Proof.
  unfold pushed. destruct (branch this e) as [[| | | |cs| |]|]; try constructor.
  destruct (_depth e + 1 <=? maxDepth); [|constructor].
  rewrite map_map. apply NoDup_map_NoDup_ForallPairs; [|apply seq_NoDup].
  intros k k' _ _ H. rewrite !child_idx in H.
  apply append_inv_head in H. injection H as H.
  apply toString_inj in H. lia.
Qed.

Lemma discovered_idx (n : nat) :
  NoDup (map _idx (discovered n))
  /\ forall j w x, (n <= j)%nat -> nth_error (discovered n) j = Some w ->
       In x (discovered n) -> ~ extends (_idx w) (_idx x).
Proof.
  induction n as [|n (Hnd & Hext)].
  - cbn [discovered initialValue subLevelsToInspect]. split.
    + repeat constructor. intros [].
    + intros j w x _ Hw [<-|[]] (t & Ht). cbn in Ht.
      destruct j as [|j]; [|destruct j; discriminate].
      injection Hw as <-. cbn in Ht. discriminate.
  - destruct (nth_error (discovered n) n) as [e|] eqn:E.
    2:{ rewrite (discovered_S_none n E). split; [assumption|].
        intros j w x Hj. apply Hext. lia. }
    rewrite (discovered_S_some n e E).
    assert (Hlen : (n < List.length (discovered n))%nat)
      by (apply nth_error_Some; congruence).
    assert (Hin : In e (discovered n)) by (eapply nth_error_In; eassumption).
    assert (Hfresh : forall x c, In x (discovered n) ->
              In c (pushed (Z.of_nat n) e) -> _idx x <> _idx c).
    { intros x c Hx Hc Heq. apply In_pushed in Hc.
      destruct Hc as (cs & k & _ & _ & _ & ->). rewrite child_idx in Heq.
      apply (Hext n e x (Nat.le_refl n) E Hx). eexists. exact Heq. }
    split.
    + rewrite map_app. apply NoDup_app; [assumption|apply pushed_idx_NoDup|].
      intros s Hs Hs'. apply in_map_iff in Hs, Hs'.
      destruct Hs as (x & <- & Hx). destruct Hs' as (c & Heq & Hc).
      now apply (Hfresh x c Hx Hc).
    + intros j w x Hj Hw Hx (t & Ht).
      apply in_app_or in Hx.
      destruct (Nat.lt_ge_cases j (List.length (discovered n))) as [Hjl|Hjl].
      * rewrite nth_error_app1 in Hw by assumption.
        destruct Hx as [Hx|Hx].
        -- apply (Hext j w x); [lia|assumption|assumption|now exists t].
        -- apply In_pushed in Hx. destruct Hx as (cs & k & _ & _ & _ & ->).
           rewrite child_idx in Ht.
           destruct (path_split _ _ _ _ Ht (toString_no_underscore _))
             as [[Heq _]|Hex].
           ++ rewrite NoDup_nth_error in Hnd. rewrite length_map in Hnd.
              specialize (Hnd n j). rewrite !nth_error_map, E, Hw in Hnd.
              cbn in Hnd. rewrite Heq in Hnd.
              specialize (Hnd Hlen eq_refl). lia.
           ++ apply (Hext j w e); [lia|assumption|assumption|assumption].
      * rewrite nth_error_app2 in Hw by assumption.
        apply nth_error_In, In_pushed in Hw.
        destruct Hw as (cs & k & _ & _ & _ & ->). rewrite child_idx in Ht.
        destruct Hx as [Hx|Hx].
        -- apply (Hext n e x (Nat.le_refl n) E Hx).
           rewrite append_assoc in Ht. eexists. exact Ht.
        -- apply In_pushed in Hx. destruct Hx as (cs' & k' & _ & _ & _ & ->).
           rewrite child_idx, append_assoc in Ht.
           apply append_inv_head in Ht. cbn in Ht. injection Ht as Ht.
           pose proof (toString_no_underscore (Z.of_nat k')) as Hk'.
           rewrite Ht, has_underscore_append in Hk'. cbn in Hk'.
           rewrite orb_true_r in Hk'. discriminate.
Qed.

(** Every entry but the first was pushed by an earlier one. *)
Lemma discovered_parent (n j : nat) (x : node) :
  nth_error (discovered n) j = Some x ->
  (j = 0%nat /\ x = root)
  \/ exists p e k, (p < n)%nat /\ (p < j)%nat
       /\ nth_error (discovered n) p = Some e
       /\ nth_error (pushed (Z.of_nat p) e) k = Some x
       /\ j = (List.length (discovered p) + k)%nat.
Proof.
  revert j x; induction n as [|n IH]; intros j x H.
  - left. cbn [discovered initialValue subLevelsToInspect] in H.
    destruct j as [|j]; [|destruct j; discriminate].
    injection H as <-. auto.
  - destruct (nth_error (discovered n) n) as [e|] eqn:E.
    2:{ rewrite (discovered_S_none n E) in H |- *.
        destruct (IH j x H) as [?|(p & e & k & H1 & H2 & H3)]; [now left|].
        right. exists p, e, k. intuition lia. }
    rewrite (discovered_S_some n e E) in H |- *.
    assert (Hlen : (n < List.length (discovered n))%nat)
      by (apply nth_error_Some; congruence).
    destruct (Nat.lt_ge_cases j (List.length (discovered n))) as [Hjl|Hjl].
    + rewrite nth_error_app1 in H by assumption.
      destruct (IH j x H) as [?|(p & e' & k & H1 & H2 & H3 & H4)]; [now left|].
      right. exists p, e', k. repeat split; try lia; try tauto.
      rewrite nth_error_app1; [assumption|].
      apply nth_error_Some. congruence.
    + rewrite nth_error_app2 in H by assumption. right.
      exists n, e, (j - List.length (discovered n))%nat.
      repeat split; try lia; try assumption.
      now rewrite nth_error_app1.
Qed.

(** ** The element of a step *)

Lemma element_pairs_metadata (this : Z) (e : node) (kv : document) :
  element_pairs this e kv = metadata this e kv ++ filter (kept this) kv.
Proof.
  unfold element_pairs, metadata. rewrite map_pair_eta.
  now destruct showSchema.
Qed.

Lemma lookup_rev_metadata (k : string) (this : Z) (e : node) (kv : document) :
  lookup k (rev (metadata this e kv)) = lookup k (metadata this e kv).
Proof.
  unfold metadata. destruct showSchema; cbn;
    (destruct (String.eqb_spec k "_ord") as [->|]; [reflexivity|]);
    (destruct (String.eqb_spec k "_depth") as [->|]; [reflexivity|]);
    (destruct (String.eqb_spec k "_idx") as [->|]; [reflexivity|]);
    reflexivity.
Qed.

(** The value of a field of the element of a document: the last field of
    that name that passes the [$filter], the traversal's own otherwise. *)
Lemma element_Doc (this : Z) (e : node) (fs : document) :
  subdoc e = Doc fs ->
  element this e = Some (Doc (arrayToObject (element_pairs this e fs)))
  /\ forall k,
       lookup k (arrayToObject (element_pairs this e fs))
       = match lookup k (rev (filter (kept this) fs)) with
         | Some v => Some v
         | None => lookup k (metadata this e fs)
         end.
Proof.
  intros H. unfold element. rewrite H. cbn [objectToArray]. split; [reflexivity|].
  intros k.
  rewrite lookup_arrayToObject, element_pairs_metadata, rev_app_distr,
    lookup_app, lookup_rev_metadata.
  reflexivity.
Qed.

Lemma labelled_Doc (name : string) (this : Z) (e : node) :
  labelled name (this, e) = true ->
  exists fs, subdoc e = Doc fs
             /\ lookup name (rev (filter (kept this) fs)) = None.
Proof.
  unfold labelled. cbn [fst snd].
  destruct (subdoc e) as [| | | | |fs|[] bs]; try discriminate.
  intros H. exists fs. split; [reflexivity|].
  apply lookup_None. intros v Hv. apply in_rev, filter_In in Hv.
  destruct Hv as [Hin Hk]. apply negb_true_iff in H.
  assert (existsb (fun pair => String.eqb (fst pair) name && kept this pair) fs
          = true); [|congruence].
  apply existsb_exists. exists (name, v). split; [assumption|].
  cbn [fst]. now rewrite String.eqb_refl, Hk.
Qed.

(** The element of a labelled step carries the traversal's own value. *)
Lemma labelled_element (name : string) (this : Z) (e : node) :
  labelled name (this, e) = true ->
  exists fs d, subdoc e = Doc fs /\ element this e = Some (Doc d)
               /\ lookup name d = lookup name (metadata this e fs).
Proof.
  intros H. destruct (labelled_Doc _ _ _ H) as (fs & Hfs & Hnone).
  destruct (element_Doc this e fs Hfs) as (He & Hk).
  exists fs, (arrayToObject (element_pairs this e fs)).
  split; [assumption|]. split; [assumption|]. now rewrite Hk, Hnone.
Qed.

Lemma element_not_single (this : Z) (e : node) (r : bson) :
  element this e = Some r -> single_field r = false.
Proof.
  unfold element. destruct (objectToArray (subdoc e)) as [kv| |];
    [|intros H; now injection H as <-|discriminate].
  intros H. injection H as <-.
  unfold arrayToObject, element_pairs. cbn [app fold_left fst snd setField].
  cbn [String.eqb Ascii.eqb Bool.eqb].
  match goal with
  | |- context [fold_left ?f ?kv ?d] =>
      pose proof (length_fold_setField kv d) as Hlen;
      destruct (fold_left f kv d) as [|p1 [|p2 l]]
  end; cbn in Hlen; try lia; reflexivity.
Qed.

(** ** The elements of [result], by position *)

Lemma collected_length (n : nat) :
  (forall k, (k < n)%nat -> emitted (Z.of_nat k) (worklist k) <> None) ->
  (forall k, (k < n)%nat -> worklist k <> []) ->
  List.length (collected n) = n.
Proof.
  induction n as [|n IH]; intros Hok Hlive; [reflexivity|].
  rewrite collected_S, length_app, IH by (intros; auto).
  specialize (Hok n (Nat.lt_succ_diag_r n)).
  specialize (Hlive n (Nat.lt_succ_diag_r n)).
  unfold emission, emitted in *.
  destruct (worklist n) as [|e w]; [congruence|]. cbn [hd_error] in *.
  destruct (Z.of_nat n >=? maxElements); [cbn; lia|].
  destruct (element (Z.of_nat n) e); [cbn; lia|congruence].
Qed.

Lemma emitted_length (this : Z) (w : list node) (l : list bson) :
  emitted this w = Some l ->
  (w = [] /\ l = []) \/ (exists r, w <> [] /\ l = [r]).
Proof.
  unfold emitted. destruct w as [|e w]; cbn [hd_error].
  - intros H. injection H as <-. now left.
  - destruct (this >=? maxElements).
    + intros H. injection H as <-. right. eexists. split; [discriminate|eauto].
    + destruct (element this e); [|discriminate].
      intros H. injection H as <-. right. eexists. split; [discriminate|eauto].
Qed.

Lemma collected_nth (n j : nat) (r : bson) :
  (forall k, (k < n)%nat -> emitted (Z.of_nat k) (worklist k) <> None) ->
  (nth_error (collected n) j = Some r
   <-> (j < n)%nat /\ emitted (Z.of_nat j) (worklist j) = Some [r]).
Proof.
  induction n as [|n IH]; intros Hok.
  - cbn. rewrite nth_error_nil. split; [discriminate|intros [H _]; lia].
  - assert (Hok' : forall k, (k < n)%nat ->
                     emitted (Z.of_nat k) (worklist k) <> None)
      by (intros; apply Hok; lia).
    specialize (IH Hok'). rewrite collected_S.
    specialize (Hok n (Nat.lt_succ_diag_r n)).
    destruct (emitted (Z.of_nat n) (worklist n)) as [l|] eqn:E; [|congruence].
    unfold emission. rewrite E.
    destruct (emitted_length _ _ _ E) as [[Hw ->]|(r0 & Hw & ->)].
    + rewrite app_nil_r, IH. split; [intros [? ?]; split; [lia|assumption]|].
      intros [Hj Hr]. split; [|assumption].
      destruct (Nat.eq_dec j n) as [->|]; [|lia]. congruence.
    + assert (Hlen : List.length (collected n) = n).
      { apply collected_length; [assumption|].
        intros k Hk Hnil. apply Hw. apply (worklist_nil_le k n); [lia|assumption]. }
      destruct (Nat.lt_ge_cases j n) as [Hj|Hj].
      * rewrite nth_error_app1, IH by lia. intuition lia.
      * rewrite nth_error_app2 by lia. rewrite Hlen.
        destruct (j - n)%nat as [|d] eqn:Ed; cbn [nth_error].
        -- assert (j = n) by lia. subst j. rewrite E.
           split; [intros H; injection H as <-; split; [lia|reflexivity]|].
           intros [_ H]. now injection H as <-.
        -- rewrite nth_error_nil. split; [discriminate|]. intros [? _]. lia.
Qed.

(** The element at each position of [result] and the step it comes from. *)
Lemma result_nth (a : acc) (j : nat) (r : bson) :
  reduce = Some a ->
  (nth_error (result a) j = Some r
   <-> exists e, inspected j = Some e
         /\ ((Z.of_nat j < maxElements /\ element (Z.of_nat j) e = Some r)
             \/ (Z.of_nat j = maxElements /\ r = WARNING))).
Proof.
  intros H. apply reduce_run in H.
  destruct (run_spec _ _ H) as (-> & _ & Hok).
  rewrite (collected_nth _ j r Hok). unfold inspected, emitted.
  split.
  - intros [Hj He]. destruct (worklist j) as [|e w]; [discriminate|].
    cbn [hd_error] in *. exists e. split; [reflexivity|].
    destruct (Z.of_nat j >=? maxElements) eqn:Eg.
    + right. injection He as <-. rewrite Z.geb_leb in Eg. apply Z.leb_le in Eg.
      split; [lia|reflexivity].
    + left. rewrite Z.geb_leb in Eg. apply Z.leb_gt in Eg.
      destruct (element (Z.of_nat j) e); [|discriminate].
      injection He as <-. auto.
  - intros (e & He & Hcase). rewrite He.
    destruct Hcase as [[Hlt Hel]|[Heq ->]].
    + rewrite (geb_false _ _ Hlt), Hel. split; [lia|reflexivity].
    + rewrite geb_true by lia. split; [lia|reflexivity].
Qed.

Lemma visited_In (j : nat) (e : node) :
  inspected j = Some e -> Z.of_nat j < maxElements ->
  In (Z.of_nat j, e) visited.
Proof.
  intros He Hj. apply (nth_error_In _ j). apply nth_error_visited. auto.
Qed.

(** Past the bound check of [$range], the plan fails only on a
    sub-document that is neither a document nor [null]. *)
Lemma reduce_total :
  int32 (maxElements + 1) = true ->
  forallb evaluable visited = true -> exists a, reduce = Some a.
Proof.
  intros Hin H. rewrite (run_reduce Hin). eexists. apply run_total.
  intros k _. unfold emitted.
  destruct (worklist k) as [|e w] eqn:E; cbn [hd_error]; [discriminate|].
  destruct (Z.of_nat k >=? maxElements) eqn:Eg; [discriminate|].
  rewrite Z.geb_leb in Eg. apply Z.leb_gt in Eg.
  assert (He : inspected k = Some e) by (unfold inspected; now rewrite E).
  rewrite forallb_forall in H. specialize (H _ (visited_In k e He Eg)).
  unfold evaluable in H. cbn [snd] in H. unfold element.
  destruct (subdoc e) as [| | | | | |[] bs]; discriminate.
Qed.

Lemma labelled_evaluable (name : string) :
  forallb (labelled name) visited = true -> forallb evaluable visited = true.
Proof.
  rewrite !forallb_forall. intros H ie Hie. specialize (H ie Hie).
  unfold labelled in H. unfold evaluable. now destruct (subdoc (snd ie)).
Qed.

(** ** Counting the nodes *)

Lemma subtree_size_pos (levels : nat) (name : string) (v : bson) :
  (1 <= subtree_size levels name v)%nat.
Proof. destruct levels; cbn; lia. Qed.

Lemma currChildFieldName_S (n : nat) :
  currChildFieldName (Z.of_nat (S n)) = connectToField.
Proof.
  unfold currChildFieldName.
  destruct (Z.leb_spec (Z.of_nat (S n)) 0); [lia|reflexivity].
Qed.

Lemma weight_pushed (n : nat) (e : node) :
  weight (Z.of_nat n) e
  = S (pending (Z.of_nat (S n)) (pushed (Z.of_nat n) e)).
Proof.
  unfold weight, pending, pushed, branch.
  destruct (Z.leb_spec (_depth e + 1) maxDepth) as [Hd|Hd].
  - replace (Z.to_nat (maxDepth - _depth e))
      with (S (Z.to_nat (maxDepth - (_depth e + 1)))) by lia.
    cbn [subtree_size].
    destruct (getField (currChildFieldName (Z.of_nat n)) (Some (subdoc e)))
      as [[| | | |cs| |]|]; try reflexivity.
    f_equal. f_equal. rewrite map_map.
    rewrite <- (map_nth_seq Null cs) at 1. rewrite map_map.
    apply map_ext. intros k. unfold weight. rewrite currChildFieldName_S.
    reflexivity.
  - replace (Z.to_nat (maxDepth - _depth e)) with 0%nat by lia.
    cbn [subtree_size].
    now destruct (getField (currChildFieldName (Z.of_nat n)) (Some (subdoc e)))
      as [[| | | |cs| |]|].
Qed.

Lemma pending_S (n : nat) (e : node) (w : list node) :
  worklist n = e :: w ->
  pending (Z.of_nat n) w = pending (Z.of_nat (S n)) w.
Proof.
  intros H. destruct n as [|n].
  - cbn in H. injection H as _ <-. reflexivity.
  - unfold pending. apply f_equal, map_ext. intros x. unfold weight.
    now rewrite !currChildFieldName_S.
Qed.

Lemma pending_cons (this : Z) (e : node) (w : list node) :
  pending this (e :: w) = (weight this e + pending this w)%nat.
Proof. reflexivity. Qed.

(** Each step takes one node off what is left to count. *)
Lemma count_nodes (n : nat) :
  (worklist n <> [] ->
   (n + pending (Z.of_nat n) (worklist n))%nat = reachable)
  /\ (worklist n = [] -> (reachable <= n)%nat).
Proof.
  induction n as [|n [IH1 IH2]].
  - split; [|discriminate]. intros _. cbn [worklist initialValue
      subLevelsToInspect]. unfold pending, weight, reachable. cbn.
    rewrite Z.sub_0_r. lia.
  - destruct (worklist n) as [|e w] eqn:E.
    + rewrite (worklist_nil_S n E). split; [congruence|].
      intros _. specialize (IH2 eq_refl). lia.
    + rewrite (worklist_S_cons n e w E).
      assert (Hn : (n + pending (Z.of_nat n) (e :: w))%nat = reachable)
        by (apply IH1; discriminate).
      rewrite pending_cons, weight_pushed, (pending_S n e w E) in Hn.
      assert (Happ : pending (Z.of_nat (S n)) (w ++ pushed (Z.of_nat n) e)
                     = (pending (Z.of_nat (S n)) w
                        + pending (Z.of_nat (S n)) (pushed (Z.of_nat n) e))%nat)
        by (unfold pending; now rewrite map_app, list_sum_app).
      split.
      * intros _. rewrite Happ. lia.
      * intros Hnil. apply app_eq_nil in Hnil. destruct Hnil as [-> Hp].
        rewrite Hp in Hn. unfold pending in Hn. cbn [map list_sum] in Hn.
        cbn in Hn. lia.
Qed.

Lemma pending_pos (this : Z) (e : node) (w : list node) :
  (1 <= pending this (e :: w))%nat.
Proof.
  rewrite pending_cons. unfold weight.
  pose proof (subtree_size_pos (Z.to_nat (maxDepth - _depth e))
                (currChildFieldName this) (subdoc e)). lia.
Qed.

(** An entry is left to inspect at step [n] exactly when more than [n]
    nodes can be reached. *)
Lemma inspected_reachable (n : nat) :
  (exists e, inspected n = Some e) <-> (n < reachable)%nat.
Proof.
  unfold inspected. destruct (count_nodes n) as [H1 H2].
  destruct (worklist n) as [|e w] eqn:E; cbn [hd_error].
  - split; [intros (e & He); discriminate|].
    intros Hlt. specialize (H2 eq_refl). lia.
  - split; [|eauto]. intros _.
    assert (Hne : e :: w <> []) by discriminate.
    specialize (H1 Hne). pose proof (pending_pos (Z.of_nat n) e w). lia.
Qed.

(** ** What the filter keeps *)

Lemma existsb_eqb_In (k : string) (l : list string) :
  existsb (String.eqb k) l = true <-> In k l.
Proof.
  rewrite existsb_exists. split.
  - intros (x & Hx & Heq). apply String.eqb_eq in Heq. now subst.
  - intros H. exists k. split; [assumption|apply String.eqb_refl].
Qed.

Lemma kept_false (this : Z) (k : string) :
  In k omitFields \/ k = currChildFieldName this ->
  forall v, kept this (k, v) = false.
Proof.
  intros [H| ->] v; unfold kept; cbn [fst].
  - apply existsb_eqb_In in H. rewrite H. now rewrite andb_false_r.
  - now rewrite String.eqb_refl.
Qed.


(** ** The entries that are inspected *)

Lemma inspected_depth_range (j : nat) (e : node) :
  inspected j = Some e -> 0 <= _depth e <= maxDepth.
Proof.
  rewrite inspected_discovered. intros H. apply nth_error_In in H.
  now apply (proj1 (discovered_depths j)).
Qed.

(** The index selects the root branching field exactly at depth 0. *)
Lemma inspected_depth_zero (j : nat) (e : node) :
  inspected j = Some e -> (Z.of_nat j <=? 0) = (_depth e =? 0).
Proof.
  rewrite inspected_discovered. intros H.
  destruct (discovered_depths j) as (_ & (rest & Hroot & Hrest) & _).
  rewrite Hroot in H. destruct j as [|j]; cbn [nth_error] in H.
  - injection H as <-. reflexivity.
  - apply nth_error_In, Hrest in H.
    destruct (Z.leb_spec (Z.of_nat (S j)) 0); [lia|].
    symmetry. apply Z.eqb_neq. lia.
Qed.

Lemma emitted_Doc (this : Z) (e : node) (w : list node) (fs : document) :
  subdoc e = Doc fs -> this < maxElements ->
  emitted this (e :: w) = Some [Doc (arrayToObject (element_pairs this e fs))].
Proof.
  intros Hfs Hlt. unfold emitted. cbn [hd_error].
  rewrite (geb_false _ _ Hlt).
  destruct (element_Doc this e fs Hfs) as [-> _]. reflexivity.
Qed.

Lemma inspected_idx_inj (i j : nat) (ei ej : node) :
  inspected i = Some ei -> inspected j = Some ej -> _idx ei = _idx ej ->
  i = j.
Proof.
  intros Hi Hj Heq.
  rewrite (inspected_nth i (Nat.max i j)) in Hi by lia.
  rewrite (inspected_nth j (Nat.max i j)) in Hj by lia.
  destruct (discovered_idx (Nat.max i j)) as [Hnd _].
  rewrite NoDup_nth_error in Hnd. apply Hnd.
  - rewrite length_map. apply nth_error_Some. congruence.
  - rewrite !nth_error_map, Hi, Hj. cbn. now rewrite Heq.
Qed.

Lemma inspected_depth_mono (i j : nat) (ei ej : node) :
  (i <= j)%nat -> inspected i = Some ei -> inspected j = Some ej ->
  _depth ei <= _depth ej.
Proof.
  intros Hle Hi Hj. rewrite (inspected_nth i j Hle) in Hi.
  rewrite inspected_discovered in Hj.
  destruct (discovered_depths j) as (_ & _ & Hsort & _).
  exact (Hsort i j ei ej Hle Hi Hj).
Qed.

(** Every entry inspected after the first was pushed by an entry that was
    inspected before it. *)
Lemma inspected_parent (j : nat) (e : node) :
  inspected (S j) = Some e ->
  exists p ep k, (p <= j)%nat /\ inspected p = Some ep
    /\ nth_error (pushed (Z.of_nat p) ep) k = Some e
    /\ S j = (List.length (discovered p) + k)%nat.
Proof.
  intros H. rewrite inspected_discovered in H.
  destruct (discovered_parent _ _ _ H) as [[? _]|(p & ep & k & H1 & H2 & H3 & H4 & H5)];
    [discriminate|].
  exists p, ep, k. repeat split; try assumption; [lia|].
  now rewrite (inspected_nth p (S j)) by lia.
Qed.

Lemma discovered_length_S (p : nat) (ep : node) :
  inspected p = Some ep ->
  List.length (discovered (S p))
  = (List.length (discovered p) + List.length (pushed (Z.of_nat p) ep))%nat.
Proof.
  rewrite inspected_discovered. intros H.
  now rewrite (discovered_S_some p ep H), length_app.
Qed.

Lemma discovered_length_mono (n m : nat) :
  (n <= m)%nat ->
  (List.length (discovered n) <= List.length (discovered m))%nat.
Proof.
  intros H. destruct (discovered_prefix n m H) as (l & ->).
  rewrite length_app. lia.
Qed.

(** The position of the entry whose path is that of an inspected entry
    followed by an index. *)
Lemma child_position (ja jp ka : nat) (ea ep : node) :
  inspected ja = Some ea -> inspected jp = Some ep ->
  _idx ea = (_idx ep ++ String "_" (toString (Z.of_nat ka)))%string ->
  ja = (List.length (discovered jp) + ka)%nat
  /\ (ja < List.length (discovered (S jp)))%nat
  /\ (jp < ja)%nat
  /\ nth_error (pushed (Z.of_nat jp) ep) ka = Some ea.
Proof.
  intros Ha Hp Hidx. destruct ja as [|ja].
  - unfold inspected in Ha. cbn in Ha. injection Ha as <-. cbn in Hidx.
    apply (f_equal has_underscore) in Hidx.
    rewrite has_underscore_append in Hidx. cbn in Hidx.
    rewrite orb_true_r in Hidx. discriminate.
  - destruct (inspected_parent ja ea Ha) as (p & ep' & k & Hle & Hp' & Hk & Hpos).
    destruct (nth_error_pushed _ _ _ _ Hk) as (cs & _ & _ & _ & Hc).
    rewrite Hc, child_idx in Hidx.
    apply path_split_eq in Hidx; try apply toString_no_underscore.
    destruct Hidx as [Hi Hs]. apply toString_inj, Nat2Z.inj in Hs. subst k.
    assert (p = jp) by (eapply inspected_idx_inj; eassumption). subst p.
    assert (ep' = ep) by congruence. subst ep'.
    rewrite (discovered_length_S jp ep Hp).
    assert (ka < List.length (pushed (Z.of_nat jp) ep))%nat
      by (apply nth_error_Some; congruence).
    repeat split; try assumption; lia.
Qed.

(** ** The traversal's own fields in [result] *)

Lemma field_WARNING (name : string) :
  In name ["_ord"; "_depth"; "_idx"] -> field name WARNING = None.
Proof. intros [<-|[<-|[<-|[]]]]; reflexivity. Qed.

Lemma existsb_false_In {A : Type} (f : A -> bool) (l : list A) (x : A) :
  existsb f l = false -> In x l -> f x = false.
Proof.
  intros H Hx. destruct (f x) eqn:E; [|reflexivity].
  rewrite <- H. symmetry. apply existsb_exists. eauto.
Qed.

Lemma labelled_inherits (name : string) :
  forallb (labelled name) visited = true ->
  existsb (inherits name) visited = false.
Proof.
  intros H. destruct (existsb (inherits name) visited) eqn:E; [|reflexivity].
  apply existsb_exists in E. destruct E as (ie & Hin & Hie).
  rewrite forallb_forall in H. specialize (H ie Hin).
  unfold labelled in H. unfold inherits in Hie.
  destruct (subdoc (snd ie)); try discriminate.
  rewrite Hie in H. discriminate.
Qed.

Lemma inherits_lookup (name : string) (this : Z) (e : node) (fs : document) :
  inherits name (this, e) = false -> subdoc e = Doc fs ->
  lookup name (rev (filter (kept this) fs)) = None.
Proof.
  unfold inherits. cbn [fst snd]. intros H Hs. rewrite Hs in H.
  apply lookup_None. intros v Hv. apply in_rev, filter_In in Hv.
  destruct Hv as [Hin Hk].
  assert (existsb (fun pair => String.eqb (fst pair) name && kept this pair) fs
          = true); [|congruence].
  apply existsb_exists. exists (name, v). split; [assumption|].
  cbn [fst]. now rewrite String.eqb_refl, Hk.
Qed.

(** A field of an element under one of the traversal's names, when no
    sub-document passes on a field of that name, is the traversal's. *)
Lemma record_metadata (name : string) (a : acc) (j : nat) (r v : bson) :
  In name ["_ord"; "_depth"; "_idx"] ->
  existsb (inherits name) visited = false ->
  reduce = Some a ->
  nth_error (result a) j = Some r ->
  field name r = Some v ->
  exists e fs, inspected j = Some e /\ Z.of_nat j < maxElements
    /\ subdoc e = Doc fs
    /\ lookup name (metadata (Z.of_nat j) e fs) = Some v.
Proof.
  intros Hname H Ha Hr Hf. apply (result_nth a j r Ha) in Hr.
  destruct Hr as (e & He & [[Hlt Hel]|[_ ->]]).
  2:{ rewrite (field_WARNING name Hname) in Hf. discriminate. }
  pose proof (existsb_false_In _ _ _ H (visited_In j e He Hlt)) as Hi.
  destruct (subdoc e) as [| | | | |fs|[] bs] eqn:Es;
    try (unfold element in Hel; rewrite Es in Hel; cbn in Hel;
         (discriminate || (injection Hel as <-; discriminate))).
  destruct (element_Doc (Z.of_nat j) e fs Es) as [Hd Hl].
  rewrite Hd in Hel. injection Hel as <-. cbn [field] in Hf.
  rewrite Hl, (inherits_lookup name _ e fs Hi Es) in Hf.
  exists e, fs. auto.
Qed.

Lemma record_ord (a : acc) (j : nat) (r v : bson) :
  existsb (inherits "_ord") visited = false -> reduce = Some a ->
  nth_error (result a) j = Some r -> field "_ord" r = Some v ->
  v = Int (Z.of_nat j).
Proof.
  intros H Ha Hr Hf.
  destruct (record_metadata "_ord" a j r v) as (e & fs & _ & _ & _ & Hl);
    try assumption; [cbn; tauto|].
  unfold metadata in Hl. cbn in Hl. congruence.
Qed.

Lemma record_depth (a : acc) (j : nat) (r v : bson) :
  existsb (inherits "_depth") visited = false -> reduce = Some a ->
  nth_error (result a) j = Some r -> field "_depth" r = Some v ->
  exists e, inspected j = Some e /\ v = Int (_depth e).
Proof.
  intros H Ha Hr Hf.
  destruct (record_metadata "_depth" a j r v) as (e & fs & He & _ & _ & Hl);
    try assumption; [cbn; tauto|].
  unfold metadata in Hl. cbn in Hl. exists e. split; congruence.
Qed.

Lemma record_idx (a : acc) (j : nat) (r v : bson) :
  existsb (inherits "_idx") visited = false -> reduce = Some a ->
  nth_error (result a) j = Some r -> field "_idx" r = Some v ->
  exists e, inspected j = Some e /\ v = Str (_idx e).
Proof.
  intros H Ha Hr Hf.
  destruct (record_metadata "_idx" a j r v) as (e & fs & He & _ & _ & Hl);
    try assumption; [cbn; tauto|].
  unfold metadata in Hl. cbn in Hl. exists e. split; congruence.
Qed.

(** ** The overrun warning *)

Lemma built_not_single (rs : list bson) (vs : list (Z * node)) :
  Forall2 built rs vs -> existsb single_field rs = false.
Proof.
  induction 1 as [|r ie rs vs Hb _ IH]; [reflexivity|].
  cbn [existsb]. now rewrite (element_not_single _ _ _ Hb), IH.
Qed.

Lemma visited_length (m : nat) (e : node) :
  Z.of_nat m = maxElements -> inspected m = Some e ->
  List.length visited = m.
Proof.
  intros Hm He.
  destruct (Nat.lt_trichotomy (List.length visited) m) as [Hlt|[Heq|Hgt]];
    [exfalso|assumption|exfalso].
  - destruct (inspected_le (List.length visited) m e) as (e' & He');
      [lia|assumption|].
    assert (Hn : nth_error visited (List.length visited)
                 = Some (Z.of_nat (List.length visited), e'))
      by (apply nth_error_visited; repeat split; [lia|assumption]).
    assert (nth_error visited (List.length visited) = None)
      by (apply nth_error_None; lia).
    congruence.
  - apply nth_error_Some in Hgt.
    destruct (nth_error visited m) as [[i e']|] eqn:E; [|congruence].
    apply nth_error_visited in E. lia.
Qed.

Lemma overrun_cases :
  0 <= maxElements ->
  (overrun = [WARNING] /\ maxElements < Z.of_nat reachable
   /\ List.length visited = Z.to_nat maxElements)
  \/ (overrun = [] /\ Z.of_nat reachable <= maxElements).
Proof.
  intros H. unfold overrun.
  replace (Z.to_nat (maxElements + 1)) with (S (Z.to_nat maxElements)) by lia.
  pose proof (inspected_reachable (Z.to_nat maxElements)) as Hr.
  unfold inspected in Hr at 1.
  destruct (worklist (Z.to_nat maxElements)) as [|e w] eqn:E.
  - right. split; [reflexivity|].
    destruct (Nat.lt_ge_cases (Z.to_nat maxElements) reachable) as [Hlt|]; [|lia].
    apply Hr in Hlt. destruct Hlt as (e & He). discriminate.
  - left. split; [reflexivity|]. split.
    + assert (Z.to_nat maxElements < reachable)%nat by (apply Hr; cbn; eauto).
      lia.
    + apply (visited_length _ e); [lia|]. unfold inspected. now rewrite E.
Qed.

Lemma overrun_negative : maxElements < 0 -> overrun = [].
Proof.
  intros H. unfold overrun.
  now replace (Z.to_nat (maxElements + 1)) with 0%nat by lia.
Qed.

(** ** Breadth-first order of the entries *)

Lemma inspected_depth_order (i j : nat) (ei ej : node) :
  inspected i = Some ei -> inspected j = Some ej ->
  _depth ei < _depth ej -> (i < j)%nat.
Proof.
  intros Hi Hj Hlt. destruct (Nat.lt_ge_cases i j) as [|Hge]; [assumption|].
  pose proof (inspected_depth_mono j i ej ei Hge Hj Hi). lia.
Qed.

Lemma inspected_children_order (ip iq ia ib ka kb : nat)
    (ep eq ea eb : node) :
  inspected ip = Some ep -> inspected iq = Some eq ->
  inspected ia = Some ea -> inspected ib = Some eb ->
  _idx ea = (_idx ep ++ "_" ++ toString (Z.of_nat ka))%string ->
  _idx eb = (_idx eq ++ "_" ++ toString (Z.of_nat kb))%string ->
  (ip < iq)%nat \/ (ip = iq /\ (ka < kb)%nat) ->
  (ia < ib)%nat.
Proof.
  intros Hp Hq Ha Hb Ea Eb Hcase.
  destruct (child_position ia ip ka ea ep Ha Hp Ea) as (Pa & La & _).
  destruct (child_position ib iq kb eb eq Hb Hq Eb) as (Pb & _).
  destruct Hcase as [Hlt|[Heq Hlt]].
  - pose proof (discovered_length_mono (S ip) iq Hlt). lia.
  - subst iq. lia.
Qed.

Lemma inspected_child (j : nat) (e : node) :
  inspected (S j) = Some e ->
  exists p ep cs k,
    (p <= j)%nat /\ inspected p = Some ep
    /\ getField (currChildFieldName (Z.of_nat p)) (Some (subdoc ep))
       = Some (Arr cs)
    /\ nth_error cs k = Some (subdoc e)
    /\ _depth e = _depth ep + 1
    /\ _idx e = (_idx ep ++ "_" ++ toString (Z.of_nat k))%string.
Proof.
  intros He.
  destruct (inspected_parent j e He) as (p & ep & k & Hle & Hp & Hk & _).
  destruct (nth_error_pushed _ _ _ _ Hk) as (cs & Hb & _ & Hkl & ->).
  exists p, ep, cs, k. repeat split; try assumption.
  cbn [child subdoc]. now apply nth_error_nth'.
Qed.

(** * The properties of the plan *)

(** C1 (amended).  Evaluating the plan yields the last accumulator of the
    bounded iteration, not the emitted array alone: a document with the two
    fields [result] and [subLevelsToInspect].  [result] is the ordered list
    of the elements built at the visited steps, followed by the overrun
    warning when there is one; [subLevelsToInspect] is the work-list left
    after the last step.  The evaluation succeeds whenever
    [maxElements + 1] is a 32-bit integer and every visited sub-document is
    a document or [null]; it is aborted by [$range] when [maxElements + 1]
    is not a 32-bit integer. *)
Theorem graphDescend_value :
  (int32 (maxElements + 1) = true -> forallb evaluable visited = true ->
   exists v, graphDescend = Some v)
  /\ (int32 (maxElements + 1) = false -> graphDescend = None)
  /\ (forall v, graphDescend = Some v ->
       exists rs,
         v = Doc [("result", Arr (rs ++ overrun));
                  ("subLevelsToInspect",
                   Arr (map node_value
                          (worklist (Z.to_nat (maxElements + 1)))))]
         /\ Forall2 built rs visited).
Proof.
  unfold graphDescend. split; [|split].
  - intros Hin H. destruct (reduce_total Hin H) as (a & ->). cbn. eauto.
  - intros Hin. now rewrite reduce_guard, Hin.
  - intros v H. destruct reduce as [a|] eqn:E; [|discriminate].
    injection H as <-. destruct (reduce_shape a E) as (rs & Hr & Hb & Hw).
    exists rs. unfold acc_value. now rewrite Hr, Hw.
Qed.

(** C2 (amended).  When an entry is inspected, it leaves the work-list and
    its children are appended to the tail exactly when the value of the
    branching field selected at that step is an array, whatever its
    elements are, and the depth of the entry plus one does not exceed the
    clamped [maxDepth]: one child per element, in the order of the array,
    one level deeper, with the index of the element appended to the path.
    Whatever the branching field holds, a sub-document that is a document
    and is inspected below [maxElements] is emitted as a normal element. *)
Theorem children_appended (this : Z) (e : node) (w : list node) :
  subLevelsToInspect_step (e :: w) this
  = w ++ match getField (currChildFieldName this) (Some (subdoc e)) with
         | Some (Arr cs) =>
             if _depth e + 1 <=? maxDepth
             then map (fun k =>
                         {| _depth := _depth e + 1;
                            _idx := (_idx e ++ "_"
                                     ++ toString (Z.of_nat k))%string;
                            subdoc := nth k cs Null |})
                      (seq 0 (List.length cs))
             else []
         | _ => []
         end
  /\ (forall fs, subdoc e = Doc fs -> this < maxElements ->
       emitted this (e :: w)
       = Some [Doc (arrayToObject (element_pairs this e fs))]).
Proof.
  split.
  - apply step_cons.
  - intros fs Hfs Hlt. now apply emitted_Doc.
Qed.

(** C3 (amended).  The entries are inspected in breadth-first order: an
    entry of smaller depth is inspected at a smaller index; and of two
    entries whose paths are the paths of inspected parents followed by an
    index, the one whose parent was inspected first, or the one of smaller
    index under the same parent, is inspected first.  When no visited
    sub-document passes on a field named [_ord], [_depth] or [_idx], the
    same holds of the [_depth], [_ord] and [_idx] fields of the emitted
    elements. *)
Theorem breadth_first_order :
  (forall i j ei ej, inspected i = Some ei -> inspected j = Some ej ->
     _depth ei < _depth ej -> (i < j)%nat)
  /\ (forall ip iq ia ib ka kb ep eq ea eb,
        inspected ip = Some ep -> inspected iq = Some eq ->
        inspected ia = Some ea -> inspected ib = Some eb ->
        _idx ea = (_idx ep ++ "_" ++ toString (Z.of_nat ka))%string ->
        _idx eb = (_idx eq ++ "_" ++ toString (Z.of_nat kb))%string ->
        (ip < iq)%nat \/ (ip = iq /\ (ka < kb)%nat) ->
        (ia < ib)%nat)
  /\ (forall a,
        existsb (inherits "_ord") visited = false ->
        existsb (inherits "_depth") visited = false ->
        existsb (inherits "_idx") visited = false ->
        reduce = Some a ->
        (forall ra rb da db oa ob,
            In ra (result a) -> In rb (result a) ->
            field "_depth" ra = Some (Int da) ->
            field "_depth" rb = Some (Int db) ->
            field "_ord" ra = Some (Int oa) ->
            field "_ord" rb = Some (Int ob) ->
            da < db -> oa < ob)
        /\ (forall rp rq ra rb pp pq op oq oa ob (ka kb : nat),
              In rp (result a) -> In rq (result a) ->
              In ra (result a) -> In rb (result a) ->
              field "_idx" rp = Some (Str pp) ->
              field "_ord" rp = Some (Int op) ->
              field "_idx" rq = Some (Str pq) ->
              field "_ord" rq = Some (Int oq) ->
              field "_idx" ra
              = Some (Str (pp ++ "_" ++ toString (Z.of_nat ka))) ->
              field "_ord" ra = Some (Int oa) ->
              field "_idx" rb
              = Some (Str (pq ++ "_" ++ toString (Z.of_nat kb))) ->
              field "_ord" rb = Some (Int ob) ->
              op < oq \/ (op = oq /\ (ka < kb)%nat) ->
              oa < ob)).
Proof.
  split; [exact inspected_depth_order|].
  split; [intros ip iq ia ib ka kb ep eq ea eb;
          apply inspected_children_order|].
  intros a Ho Hd Hi Ha. split.
  - intros ra rb da db oa ob Hra Hrb Hda Hdb Hoa Hob Hlt.
    apply In_nth_error in Hra, Hrb.
    destruct Hra as (ja & Hja). destruct Hrb as (jb & Hjb).
    pose proof (record_ord a ja ra _ Ho Ha Hja Hoa) as Ea.
    pose proof (record_ord a jb rb _ Ho Ha Hjb Hob) as Eb.
    injection Ea as ->. injection Eb as ->.
    destruct (record_depth a ja ra _ Hd Ha Hja Hda) as (ea & Hea & Ea).
    destruct (record_depth a jb rb _ Hd Ha Hjb Hdb) as (eb & Heb & Eb).
    injection Ea as ->. injection Eb as ->.
    pose proof (inspected_depth_order ja jb ea eb Hea Heb Hlt). lia.
  - intros rp rq ra rb pp pq op oq oa ob ka kb Hrp Hrq Hra Hrb
      Hip Hop Hiq Hoq Hia Hoa Hib Hob Hcase.
    apply In_nth_error in Hrp, Hrq, Hra, Hrb.
    destruct Hrp as (jp & Hjp). destruct Hrq as (jq & Hjq).
    destruct Hra as (ja & Hja). destruct Hrb as (jb & Hjb).
    pose proof (record_ord a jp rp _ Ho Ha Hjp Hop) as Ep.
    pose proof (record_ord a jq rq _ Ho Ha Hjq Hoq) as Eq.
    pose proof (record_ord a ja ra _ Ho Ha Hja Hoa) as Ea.
    pose proof (record_ord a jb rb _ Ho Ha Hjb Hob) as Eb.
    injection Ep as ->. injection Eq as ->.
    injection Ea as ->. injection Eb as ->.
    destruct (record_idx a jp rp _ Hi Ha Hjp Hip) as (ep & Hep & Ep).
    destruct (record_idx a jq rq _ Hi Ha Hjq Hiq) as (eq & Heq & Eq).
    destruct (record_idx a ja ra _ Hi Ha Hja Hia) as (ea & Hea & Ea).
    destruct (record_idx a jb rb _ Hi Ha Hjb Hib) as (eb & Heb & Eb).
    injection Ep as ->. injection Eq as ->.
    injection Ea as Ea. injection Eb as Eb.
    assert (ja < jb)%nat; [|lia].
    apply (inspected_children_order jp jq ja jb ka kb ep eq ea eb);
      auto; lia.
Qed.

(** C4 (amended).  Whenever the plan succeeds (as it does when
    [maxElements + 1] is a 32-bit integer and the visited sub-documents are
    documents or [null]), the output has a single-field record exactly when
    [maxElements] is not negative and is exceeded by the number of
    work-list entries reachable within the clamped [maxDepth]: the
    document, and every element, a document or not, of an array under the
    branching field of an entry.  It is then the overrun warning, once, as
    the last element, at index [maxElements], after the [maxElements]
    normal elements of the earlier steps; with [maxElements = 0] the
    output is the warning alone. *)
Theorem overrun_marker :
  (int32 (maxElements + 1) = true -> forallb evaluable visited = true ->
   exists a, reduce = Some a)
  /\ forall a, reduce = Some a ->
       (existsb single_field (result a) = true
        <-> 0 <= maxElements < Z.of_nat reachable)
       /\ (existsb single_field (result a) = true ->
           exists rs, result a = rs ++ [WARNING]
             /\ Z.of_nat (List.length rs) = maxElements
             /\ existsb single_field rs = false
             /\ Forall2 built rs visited)
       /\ (existsb single_field (result a) = false ->
           Forall2 built (result a) visited)
       /\ (maxElements = 0 -> result a = [WARNING]).
Proof.
  split; [exact reduce_total|].
  intros a Ha. destruct (reduce_shape a Ha) as (rs & Hr & Hb & _).
  pose proof (built_not_single rs visited Hb) as Hns.
  pose proof (Forall2_length Hb) as Hlen.
  rewrite Hr, existsb_app, Hns. cbn [orb].
  destruct (Z.lt_ge_cases maxElements 0) as [Hneg|Hm].
  { rewrite (overrun_negative Hneg). cbn [existsb].
    split; [split; [discriminate|lia]|]. split; [discriminate|].
    split; [intros _; now rewrite app_nil_r|lia]. }
  destruct (overrun_cases Hm) as [(-> & Hlt & Hv)|(-> & Hge)]; cbn [existsb].
  - split; [split; [lia|reflexivity]|]. split; [|split; [discriminate|]].
    + intros _. exists rs. repeat split; try assumption. lia.
    + intros H0. rewrite H0 in Hv. cbn in Hv.
      rewrite Hv in Hlen. now destruct rs.
  - split; [split; [discriminate|lia]|]. split; [discriminate|].
    split; [intros _; now rewrite app_nil_r|].
    intros H0. exfalso.
    assert (0 < reachable)%nat; [|lia].
    apply (inspected_reachable 0). unfold inspected. cbn. eauto.
Qed.

(** C5 (amended).  In an emitted normal element, a name of the omission
    set or the branching field of the step never carries a field of the
    sub-document: under such a name the element has the traversal's own
    value when the name is one of [_ord], [_depth], [_idx] or, with
    [showSchema], [schema], and nothing otherwise.  The branching field of
    the step, selected by the iteration index, is the root one exactly for
    the element of depth 0. *)
Theorem omitted_fields_absent (a : acc) (j : nat) (r : bson) (k : string) :
  reduce = Some a ->
  nth_error (result a) j = Some r ->
  r <> WARNING ->
  In k omitFields \/ k = currChildFieldName (Z.of_nat j) ->
  exists e, inspected j = Some e
    /\ currChildFieldName (Z.of_nat j)
       = (if _depth e =? 0 then startWith else connectToField)
    /\ field k r = match subdoc e with
                   | Doc fs => lookup k (metadata (Z.of_nat j) e fs)
                   | _ => None
                   end
    /\ (~ In k ["_ord"; "_depth"; "_idx"; "schema"] -> field k r = None).
Proof.
  intros Ha Hr Hw Hk. apply (result_nth a j r Ha) in Hr.
  destruct Hr as (e & He & [[Hlt Hel]|[_ ->]]); [|congruence].
  exists e. split; [assumption|].
  split; [unfold currChildFieldName;
          now rewrite (inspected_depth_zero j e He)|].
  assert (Hf : field k r = match subdoc e with
                           | Doc fs => lookup k (metadata (Z.of_nat j) e fs)
                           | _ => None
                           end).
  { destruct (subdoc e) as [| | | | |fs|[] bs] eqn:Es;
      try (unfold element in Hel; rewrite Es in Hel; cbn in Hel;
           (discriminate || (injection Hel as <-; reflexivity))).
    destruct (element_Doc (Z.of_nat j) e fs Es) as [Hd Hl]. rewrite Hd in Hel.
    injection Hel as <-. cbn [field].
    now rewrite Hl, <- filter_rev,
      (lookup_filter_false _ _ _ (kept_false _ _ Hk)). }
  split; [assumption|].
  intros Hn. rewrite Hf. destruct (subdoc e); try reflexivity.
  apply lookup_None. intros v Hv. apply Hn. unfold metadata in Hv.
  destruct showSchema; cbn in Hv;
    repeat (destruct Hv as [Hv|Hv]; [injection Hv as <- _; cbn; tauto|]);
    contradiction.
Qed.

(** C6 (amended).  A [maxDepth] argument outside [0, 100] is replaced by
    100.  No inspected entry is deeper than the clamped [maxDepth], and
    when no visited sub-document passes on a field named [_depth], the
    [_depth] of every emitted element is at most the clamped [maxDepth].
    Entries at exactly that depth are pushed and, once inspected below
    [maxElements], emitted like any other. *)
Theorem depth_bound :
  (maxDepth_arg < 0 \/ 100 < maxDepth_arg -> maxDepth = 100)
  /\ (0 <= maxDepth_arg <= 100 -> maxDepth = maxDepth_arg)
  /\ (forall j e, inspected j = Some e -> 0 <= _depth e <= maxDepth)
  /\ (forall a r d,
        existsb (inherits "_depth") visited = false ->
        reduce = Some a ->
        In r (result a) -> field "_depth" r = Some (Int d) ->
        0 <= d <= maxDepth)
  /\ (forall this e cs,
        getField (currChildFieldName this) (Some (subdoc e)) = Some (Arr cs) ->
        _depth e + 1 = maxDepth ->
        subLevelsToInspect_step [e] this
        = map (fun k =>
                 {| _depth := maxDepth;
                    _idx := (_idx e ++ "_" ++ toString (Z.of_nat k))%string;
                    subdoc := nth k cs Null |})
              (seq 0 (List.length cs)))
  /\ (forall a j e,
        reduce = Some a -> inspected j = Some e -> Z.of_nat j < maxElements ->
        exists r, nth_error (result a) j = Some r
                  /\ element (Z.of_nat j) e = Some r).
Proof.
  split; [|split; [|split; [|split; [|split]]]].
  - unfold maxDepth. intros H.
    destruct (maxDepth_arg <? 0) eqn:E1; destruct (maxDepth_arg >? 100) eqn:E2;
      cbn [orb]; lia.
  - unfold maxDepth. intros H.
    destruct (maxDepth_arg <? 0) eqn:E1; destruct (maxDepth_arg >? 100) eqn:E2;
      cbn [orb]; lia.
  - exact inspected_depth_range.
  - intros a r d H Ha Hin Hf. apply In_nth_error in Hin.
    destruct Hin as (j & Hj).
    destruct (record_depth a j r _ H Ha Hj Hf) as (e & He & Heq).
    injection Heq as ->. now apply (inspected_depth_range j).
  - intros this e cs Hb Hd. rewrite step_cons. unfold pushed, branch.
    rewrite Hb. cbn [app].
    destruct (Z.leb_spec (_depth e + 1) maxDepth); [|lia].
    apply map_ext. intros k. unfold child. now rewrite Hd.
  - intros a j e Ha He Hlt.
    destruct (element (Z.of_nat j) e) as [r|] eqn:Er.
    + exists r. split; [|reflexivity].
      apply (result_nth a j r Ha). exists e. auto.
    + exfalso. apply reduce_run in Ha.
      destruct (run_spec _ _ Ha) as (_ & _ & Hok).
      assert (Hj : (j < Z.to_nat (maxElements + 1))%nat) by lia.
      apply (Hok j Hj). unfold emitted. unfold inspected in He.
      rewrite He, (geb_false _ _ Hlt), Er. reflexivity.
Qed.

(** C7 (amended).  The paths of the inspected entries are pairwise
    distinct; the path of the first is ["0"], and every later entry was
    pushed by an earlier one, its parent: its sub-document is an element
    of the array in the parent's branching field, and its path is the
    parent's path, ["_"] and the index of that element.  When
    [maxElements + 1] is a 32-bit integer and every visited sub-document is
    a document none of whose fields named [_idx] passes the filter, the
    plan succeeds and the same holds of the [_idx] fields of the emitted
    elements. *)
Theorem paths_unique :
  (forall i j ei ej, inspected i = Some ei -> inspected j = Some ej ->
     _idx ei = _idx ej -> i = j)
  /\ (forall e, inspected 0 = Some e -> _idx e = "0")
  /\ (forall j e, inspected (S j) = Some e ->
        exists p ep cs k,
          (p <= j)%nat /\ inspected p = Some ep
          /\ getField (currChildFieldName (Z.of_nat p)) (Some (subdoc ep))
             = Some (Arr cs)
          /\ nth_error cs k = Some (subdoc e)
          /\ _depth e = _depth ep + 1
          /\ _idx e = (_idx ep ++ "_" ++ toString (Z.of_nat k))%string)
  /\ (int32 (maxElements + 1) = true ->
      forallb (labelled "_idx") visited = true ->
      exists a, reduce = Some a
        /\ (forall i j ri rj s,
              nth_error (result a) i = Some ri ->
              nth_error (result a) j = Some rj ->
              field "_idx" ri = Some s -> field "_idx" rj = Some s -> i = j)
        /\ (forall r, nth_error (result a) 0 = Some r -> r <> WARNING ->
              field "_idx" r = Some (Str "0"))
        /\ (forall j r, nth_error (result a) (S j) = Some r ->
              r <> WARNING ->
              exists p rp ep e cs k,
                (p <= j)%nat /\ nth_error (result a) p = Some rp
                /\ inspected p = Some ep /\ inspected (S j) = Some e
                /\ getField (currChildFieldName (Z.of_nat p))
                     (Some (subdoc ep)) = Some (Arr cs)
                /\ nth_error cs k = Some (subdoc e)
                /\ field "_idx" rp = Some (Str (_idx ep))
                /\ field "_idx" r
                   = Some (Str (_idx ep ++ "_" ++ toString (Z.of_nat k))))).
Proof.
  split; [exact inspected_idx_inj|].
  split; [intros e He; unfold inspected in He; cbn in He;
          now injection He as <-|].
  split; [exact inspected_child|].
  intros Hin H.
  destruct (reduce_total Hin (labelled_evaluable _ H)) as (a & Ha).
  exists a. split; [assumption|].
  assert (Hidx : forall j e r, inspected j = Some e ->
            Z.of_nat j < maxElements -> element (Z.of_nat j) e = Some r ->
            field "_idx" r = Some (Str (_idx e))).
  { intros j e r He Hlt Hel. rewrite forallb_forall in H.
    specialize (H _ (visited_In j e He Hlt)).
    destruct (labelled_element _ _ _ H) as (fs & d & _ & Hd & Hlook).
    rewrite Hd in Hel. injection Hel as <-. cbn [field]. rewrite Hlook.
    reflexivity. }
  split; [|split].
  - intros i j ri rj s Hi Hj Hfi Hfj.
    pose proof (labelled_inherits _ H) as H'.
    destruct (record_idx a i ri s H' Ha Hi Hfi) as (ei & Hei & ->).
    destruct (record_idx a j rj _ H' Ha Hj Hfj) as (ej & Hej & Heq).
    injection Heq as Heq. now apply (inspected_idx_inj i j ei ej).
  - intros r Hr Hw. apply (result_nth a 0 r Ha) in Hr.
    destruct Hr as (e & He & [[Hlt Hel]|[_ ->]]); [|congruence].
    rewrite (Hidx 0%nat e r He Hlt Hel). unfold inspected in He. cbn in He.
    now injection He as <-.
  - intros j r Hr Hw. apply (result_nth a (S j) r Ha) in Hr.
    destruct Hr as (e & He & [[Hlt Hel]|[_ ->]]); [|congruence].
    destruct (inspected_child j e He)
      as (p & ep & cs & k & Hle & Hp & Hb & Hk & _ & Hc).
    assert (Hpl : Z.of_nat p < maxElements) by lia.
    rewrite forallb_forall in H.
    pose proof (H _ (visited_In p ep Hp Hpl)) as Hlp.
    destruct (labelled_element _ _ _ Hlp) as (fs & d & _ & Hd & _).
    exists p, (Doc d), ep, e, cs, k.
    split; [assumption|]. split; [apply (result_nth a p _ Ha); eauto|].
    split; [assumption|]. split; [assumption|]. split; [exact Hb|].
    split; [exact Hk|]. split.
    + now apply (Hidx p ep).
    + rewrite (Hidx (S j) e r He Hlt Hel), Hc. reflexivity.
Qed.

(** C8 (amended).  The element at position [j] of [result] is the one
    built at iteration index [j], with the pair of [_ord] and [j] at the
    head of its pairs, or it is the overrun warning at index
    [maxElements]; emission happens at a prefix of the indices: once the
    work-list is empty it stays empty and no later step emits anything.
    When [maxElements + 1] is a 32-bit integer and every visited
    sub-document is a document none of whose fields named [_ord] passes the
    filter, the plan succeeds and the [_ord] of the element at position [j]
    is [j]: the orders are 0, 1, 2, ... without gaps. *)
Theorem order_contiguous :
  (forall a j r, reduce = Some a -> nth_error (result a) j = Some r ->
     exists e, inspected j = Some e
       /\ ((Z.of_nat j < maxElements /\ element (Z.of_nat j) e = Some r)
           \/ (Z.of_nat j = maxElements /\ r = WARNING)))
  /\ (forall n m, (n <= m)%nat -> worklist n = [] ->
        worklist m = [] /\ emitted (Z.of_nat m) (worklist m) = Some [])
  /\ (int32 (maxElements + 1) = true ->
      forallb (labelled "_ord") visited = true ->
      exists a, reduce = Some a
        /\ forall j r, nth_error (result a) j = Some r ->
             (Z.of_nat j < maxElements
              /\ field "_ord" r = Some (Int (Z.of_nat j)))
             \/ (Z.of_nat j = maxElements /\ r = WARNING)).
Proof.
  split; [|split].
  - intros a j r Ha Hr. now apply (result_nth a j r Ha).
  - intros n m Hle Hn. rewrite (worklist_nil_le n m Hle Hn). auto.
  - intros Hin H.
    destruct (reduce_total Hin (labelled_evaluable _ H)) as (a & Ha).
    exists a. split; [assumption|].
    intros j r Hr. apply (result_nth a j r Ha) in Hr.
    destruct Hr as (e & He & [[Hlt Hel]|[Heq ->]]); [left|right; auto].
    split; [assumption|].
    rewrite forallb_forall in H. specialize (H _ (visited_In j e He Hlt)).
    destruct (labelled_element _ _ _ H) as (fs & d & _ & Hd & Hord).
    rewrite Hd in Hel. injection Hel as <-. cbn [field]. rewrite Hord.
    unfold metadata. reflexivity.
Qed.

(** C9 (amended).  With [showSchema], an emitted normal element whose
    sub-document is a document without a field named [schema] that passes
    the filter carries a [schema] field: one name and type tag pair for
    each field of the sub-document, in order, computed before any field is
    filtered out, so that omitted fields and the branching field are in
    it. *)
Theorem schema_of_unfiltered (a : acc) (j : nat) (r : bson) :
  showSchema = true ->
  reduce = Some a ->
  nth_error (result a) j = Some r ->
  r <> WARNING ->
  exists e, inspected j = Some e
    /\ (labelled "schema" (Z.of_nat j, e) = true ->
        exists fs, subdoc e = Doc fs
          /\ field "schema" r
             = Some (Arr (map (fun pair =>
                                 Doc [("fieldname", Str (fst pair));
                                      ("type", Str (bson_type (snd pair)))])
                              fs))
          /\ forall name v, In (name, v) fs ->
               exists l, field "schema" r = Some (Arr l)
                 /\ In (Doc [("fieldname", Str name);
                             ("type", Str (bson_type v))]) l).
Proof.
  intros Hs Ha Hr Hw. apply (result_nth a j r Ha) in Hr.
  destruct Hr as (e & He & [[Hlt Hel]|[_ ->]]); [|congruence].
  exists e. split; [assumption|]. intros Hl.
  destruct (labelled_element _ _ _ Hl) as (fs & d & Hfs & Hd & Hlook).
  rewrite Hd in Hel. injection Hel as <-. exists fs.
  split; [assumption|]. cbn [field]. rewrite Hlook. unfold metadata.
  rewrite Hs. cbn. split; [reflexivity|].
  intros name v Hin. eexists. split; [reflexivity|].
  apply in_map_iff. exists (name, v). auto.
Qed.


(** * Further properties of the plan *)

(** ** The budget of steps *)

Lemma reduce_evaluable (a : acc) :
  reduce = Some a -> forallb evaluable visited = true.
Proof.
  intros Ha. apply reduce_run in Ha.
  destruct (run_spec _ _ Ha) as (_ & _ & Hok).
  apply forallb_forall. intros [i e] Hin.
  destruct (In_nth_error _ _ Hin) as (j & Hj).
  apply nth_error_visited in Hj. destruct Hj as (-> & Hlt & He).
  assert (Hk : (j < Z.to_nat (maxElements + 1))%nat) by lia.
  specialize (Hok j Hk). unfold inspected in He.
  destruct (worklist j) as [|e' w]; [discriminate|]. injection He as ->.
  unfold emitted in Hok. cbn [hd_error] in Hok.
  rewrite (geb_false _ _ Hlt) in Hok.
  unfold element, evaluable in *. cbn [snd].
  destruct (subdoc e) as [| | | | | |[] bs]; cbn in Hok |- *; congruence.
Qed.

Lemma visited_length_min :
  List.length visited = Nat.min (Z.to_nat maxElements) reachable.
Proof.
  assert (H : forall j, (j < List.length visited)%nat
                        <-> Z.of_nat j < maxElements /\ (j < reachable)%nat).
  { intros j. rewrite <- nth_error_Some, <- inspected_reachable. split.
    - intros Hn. destruct (nth_error visited j) as [[i e]|] eqn:E;
        [|congruence].
      apply nth_error_visited in E. destruct E as (_ & Hlt & He). eauto.
    - intros (Hlt & e & He).
      rewrite (proj2 (nth_error_visited j (Z.of_nat j) e)); [discriminate|].
      auto. }
  pose proof (H (List.length visited)) as H1.
  pose proof (H (Nat.pred (List.length visited))) as H2. lia.
Qed.

Lemma residual_nil (n : nat) : worklist n = [] <-> (reachable <= n)%nat.
Proof.
  pose proof (inspected_reachable n) as H. unfold inspected in H.
  destruct (worklist n) as [|e w]; cbn [hd_error] in H.
  - split; [intros _|reflexivity].
    destruct (Nat.lt_ge_cases n reachable) as [Hlt|]; [|assumption].
    apply H in Hlt. destruct Hlt as (e & He). discriminate.
  - split; [discriminate|]. intros Hle.
    assert (n < reachable)%nat by (apply H; eauto). lia.
Qed.

Lemma worklist_sorted (n : nat) (e x : node) (w : list node) :
  worklist n = e :: w -> In x w -> _depth e <= _depth x.
Proof.
  intros Hw Hin. destruct (In_nth_error _ _ Hin) as (i & Hi).
  destruct (discovered_depths n) as (_ & _ & Hsort & _).
  rewrite worklist_discovered in Hw.
  apply (Hsort (n + 0)%nat (n + S i)%nat); [lia| |];
    rewrite <- nth_error_skipn, Hw; [reflexivity|exact Hi].
Qed.

(** X1.  With a negative [maxElements] the range of the outer [$reduce] is
    empty: the plan does not fail as long as [maxElements + 1] is a 32-bit
    integer, it returns the initial accumulator, an empty [result] beside
    a work-list that still holds the entry of the document.  Below that,
    [$range] aborts the evaluation. *)
Theorem negative_maxElements :
  maxElements < 0 ->
  graphDescend
  = if int32 (maxElements + 1)
    then Some (Doc [("result", Arr []);
                    ("subLevelsToInspect",
                     Arr [Doc [("_depth", Int 0); ("_idx", Str "0");
                               ("subdoc", Doc ROOT)]])])
    else None.
Proof.
  intros H. unfold graphDescend. rewrite reduce_guard.
  destruct (int32 (maxElements + 1)); [|reflexivity].
  now replace (Z.to_nat (maxElements + 1)) with 0%nat by lia.
Qed.

(** X2.  The evaluation of the plan succeeds exactly when
    [maxElements + 1] is a 32-bit integer and every sub-document inspected
    below [maxElements] is a document or [null]: the plan has two ways to
    fail, [$range] on its bound and [$objectToArray] on a scalar or an
    array among the inspected sub-documents. *)
Theorem evaluation_succeeds_iff :
  (exists v, graphDescend = Some v)
  <-> int32 (maxElements + 1) = true /\ forallb evaluable visited = true.
Proof.
  unfold graphDescend. split.
  - intros (v & Hv). destruct reduce as [a|] eqn:E; [|discriminate].
    split; [exact (reduce_int32 a E)|exact (reduce_evaluable a E)].
  - intros [Hin H]. destruct (reduce_total Hin H) as (a & ->). cbn. eauto.
Qed.

(** X3.  The number of elements of [result] is the number of nodes that
    the traversal can reach within [maxDepth], capped at [maxElements + 1]
    (the elements built and the warning). *)
Theorem result_length (a : acc) :
  reduce = Some a ->
  List.length (result a) = Nat.min (Z.to_nat (maxElements + 1)) reachable.
Proof.
  intros Ha. destruct (reduce_shape a Ha) as (rs & -> & Hb & _).
  rewrite length_app, (Forall2_length Hb), visited_length_min.
  pose proof (subtree_size_pos (Z.to_nat maxDepth) startWith (Doc ROOT)) as Hp.
  fold reachable in Hp.
  destruct (Z.lt_ge_cases maxElements 0) as [Hneg|Hpos].
  - rewrite (overrun_negative Hneg). cbn [List.length]. lia.
  - destruct (overrun_cases Hpos) as [(-> & Hr & _)|(-> & Hr)];
      cbn [List.length]; lia.
Qed.

(** X4.  The work-list left beside [result] is empty exactly when the
    nodes the traversal can reach are at most [maxElements + 1]; in
    particular it is empty whenever [result] has no warning. *)
Theorem residual_worklist (a : acc) :
  0 <= maxElements ->
  reduce = Some a ->
  (subLevelsToInspect a = [] <-> Z.of_nat reachable <= maxElements + 1)
  /\ (existsb single_field (result a) = false -> subLevelsToInspect a = []).
Proof.
  intros HM Ha. destruct (reduce_shape a Ha) as (rs & Hr & Hb & ->).
  split.
  - rewrite residual_nil. lia.
  - intros Hs. rewrite Hr, existsb_app in Hs.
    apply orb_false_iff in Hs. destruct Hs as [_ Hs].
    apply residual_nil.
    destruct (overrun_cases HM) as [(Ho & _)|(_ & Hle)]; [|lia].
    rewrite Ho in Hs. discriminate.
Qed.

(** X5.  The work-list left beside [result] holds, in their order, the
    entries that further steps would inspect next: its [i]-th entry is the
    one inspected at step [maxElements + 1 + i]. *)
Theorem residual_entries_pending (a : acc) (i : nat) (e : node) :
  reduce = Some a ->
  nth_error (subLevelsToInspect a) i = Some e ->
  inspected (Z.to_nat (maxElements + 1) + i) = Some e.
Proof.
  intros Ha Hi. destruct (reduce_shape a Ha) as (_ & _ & _ & Hw).
  rewrite Hw, worklist_discovered, nth_error_skipn in Hi.
  rewrite inspected_discovered.
  apply (discovered_stable (Z.to_nat (maxElements + 1))); [lia|exact Hi].
Qed.

(** X6.  The entry that is inspected at the step of index [maxElements]
    is lost: the warning stands in its place in [result], no element is
    built for it, and it is not in the work-list left beside [result]
    either. *)
Theorem overrun_entry_lost (a : acc) (e : node) :
  0 <= maxElements ->
  reduce = Some a ->
  inspected (Z.to_nat maxElements) = Some e ->
  nth_error (result a) (Z.to_nat maxElements) = Some WARNING
  /\ (forall i, ~ In (i, e) visited)
  /\ ~ In e (subLevelsToInspect a).
Proof.
  intros HM Ha He. split; [|split].
  - apply (result_nth a _ _ Ha). exists e. split; [assumption|]. right.
    split; [lia|reflexivity].
  - intros i Hin. destruct (In_nth_error _ _ Hin) as (j & Hj).
    apply nth_error_visited in Hj. destruct Hj as (_ & Hlt & Hj).
    pose proof (inspected_idx_inj _ _ _ _ Hj He eq_refl). lia.
  - destruct (reduce_shape a Ha) as (_ & _ & _ & ->).
    replace (Z.to_nat (maxElements + 1)) with (S (Z.to_nat maxElements))
      by lia.
    set (m := Z.to_nat maxElements) in *. intros Hin.
    destruct (In_nth_error _ _ Hin) as (i & Hi).
    rewrite worklist_discovered, nth_error_skipn in Hi.
    rewrite (inspected_nth m (S m)) in He by lia.
    destruct (discovered_idx (S m)) as [Hnd _].
    rewrite NoDup_nth_error in Hnd.
    assert (Hlt : (m < List.length (map _idx (discovered (S m))))%nat).
    { rewrite length_map. apply nth_error_Some. congruence. }
    specialize (Hnd m (S m + i)%nat Hlt).
    rewrite !nth_error_map, He, Hi in Hnd. specialize (Hnd eq_refl). lia.
Qed.

(** X7.  A document whose entry pushes no children (it has no array
    under [startWith], or an empty one, or [maxDepth] is 0) gives, for any
    [maxElements] of at least 1 that [$range] accepts, a [result] of the
    single element of the document and an empty work-list. *)
Theorem childless_document :
  1 <= maxElements ->
  maxDepth = 0
  \/ isArray (getField startWith (Some (Doc ROOT))) = false
  \/ getField startWith (Some (Doc ROOT)) = Some (Arr []) ->
  graphDescend
  = if int32 (maxElements + 1)
    then Some (Doc [("result",
                     Arr [Doc (arrayToObject (element_pairs 0 root ROOT))]);
                    ("subLevelsToInspect", Arr [])])
    else None.
Proof.
  intros HM Hc.
  assert (Hp : pushed 0 root = []).
  { unfold pushed, branch, currChildFieldName.
    cbn [Z.leb Z.compare subdoc _depth root].
    destruct Hc as [Hd|[Hna|Hnil]].
    - rewrite Hd. change (0 + 1 <=? 0) with false.
      now destruct (getField startWith (Some (Doc ROOT))) as [[]|].
    - now destruct (getField startWith (Some (Doc ROOT))) as [[]|].
    - rewrite Hnil. now destruct (_ <=? _). }
  assert (H1 : worklist 1 = []).
  { rewrite (worklist_S_cons 0 root []); [|reflexivity]. exact Hp. }
  assert (Hw : forall k, (1 <= k)%nat -> worklist k = [])
    by (intros k Hk; exact (worklist_nil_le 1 k Hk H1)).
  assert (H0 : emitted 0 (worklist 0)
               = Some [Doc (arrayToObject (element_pairs 0 root ROOT))]).
  { apply (emitted_Doc 0 root [] ROOT); [reflexivity|lia]. }
  unfold graphDescend. rewrite reduce_guard.
  destruct (int32 (maxElements + 1)); [|reflexivity].
  destruct (Z.to_nat (maxElements + 1)) as [|n] eqn:EN; [lia|].
  rewrite run_total.
  - cbn [option_map]. unfold acc_value. cbn [result subLevelsToInspect].
    rewrite (Hw (S n)) by lia. unfold collected. cbn [seq flat_map].
    rewrite (flat_map_emission_nil n 1 H1), app_nil_r.
    unfold emission. change (Z.of_nat 0) with 0. now rewrite H0.
  - intros [|k] Hk.
    + change (Z.of_nat 0) with 0. rewrite H0. discriminate.
    + rewrite (Hw (S k)) by lia. discriminate.
Qed.

(** ** Paths and the nodes they address *)

Lemma count_underscore_append (a b : string) :
  count_underscore (a ++ b)
  = (count_underscore a + count_underscore b)%nat.
Proof.
  induction a as [|c a IH]; cbn [append count_underscore]; [reflexivity|].
  rewrite IH. lia.
Qed.

Lemma count_underscore_none (s : string) :
  has_underscore s = false -> count_underscore s = 0%nat.
Proof.
  induction s as [|c s IH]; cbn [has_underscore count_underscore];
    [reflexivity|].
  destruct (Ascii.eqb c "_"); cbn [orb]; [discriminate|]. exact IH.
Qed.

Lemma path_of_snoc (ks : list nat) (k : nat) :
  path_of (ks ++ [k])
  = (path_of ks ++ String "_" (toString (Z.of_nat k)))%string.
Proof. unfold path_of. now rewrite fold_left_app. Qed.

Lemma count_path_of (ks : list nat) :
  count_underscore (path_of ks) = List.length ks.
Proof.
  induction ks as [|k ks IH] using rev_ind; [reflexivity|].
  rewrite path_of_snoc, length_app, count_underscore_append, IH.
  cbn [count_underscore List.length].
  rewrite (count_underscore_none _ (toString_no_underscore _)).
  reflexivity.
Qed.

Lemma path_of_snoc_underscore (ks : list nat) (k : nat) :
  has_underscore (path_of (ks ++ [k])) = true.
Proof.
  rewrite path_of_snoc, has_underscore_append. cbn [has_underscore].
  now rewrite orb_true_r.
Qed.

Lemma path_of_inj (ks ks' : list nat) : path_of ks = path_of ks' -> ks = ks'.
Proof.
  revert ks'. induction ks as [|k ks IH] using rev_ind; intros ks';
    induction ks' as [|k' ks' _] using rev_ind; intros H.
  - reflexivity.
  - apply (f_equal has_underscore) in H.
    rewrite path_of_snoc_underscore in H. discriminate.
  - apply (f_equal has_underscore) in H.
    rewrite path_of_snoc_underscore in H. discriminate.
  - rewrite !path_of_snoc in H.
    destruct (path_split_eq _ _ _ _ H (toString_no_underscore _)
                (toString_no_underscore _)) as [Hp Hk].
    apply IH in Hp. apply toString_inj, Nat2Z.inj in Hk. congruence.
Qed.

Lemma descend_snoc (ks : list nat) (k : nat) (name : string) (v : bson) :
  descend name v (ks ++ [k])
  = match descend name v ks with
    | Some v' =>
        match getField (match ks with
                        | [] => name
                        | _ :: _ => connectToField
                        end) (Some v') with
        | Some (Arr cs) => nth_error cs k
        | _ => None
        end
    | None => None
    end.
Proof.
  revert name v. induction ks as [|k0 ks IH]; intros name v;
    cbn [app descend].
  - destruct (getField name (Some v)) as [[]|]; try reflexivity.
    now destruct (nth_error l k).
  - destruct (getField name (Some v)) as [[]|]; try reflexivity.
    destruct (nth_error l k0) as [c|]; [|reflexivity].
    rewrite IH. now destruct ks.
Qed.

Lemma level_field_depth (j : nat) (e : node) (ks : list nat) :
  inspected j = Some e -> _depth e = Z.of_nat (List.length ks) ->
  currChildFieldName (Z.of_nat j) = level_field ks.
Proof.
  intros He Hd. unfold currChildFieldName.
  rewrite (inspected_depth_zero j e He), Hd.
  destruct ks as [|k ks]; [reflexivity|]. cbn [List.length level_field].
  destruct (Z.eqb_spec (Z.of_nat (S (List.length ks))) 0); [lia|reflexivity].
Qed.

Lemma inspected_path (j : nat) (e : node) :
  inspected j = Some e ->
  exists ks, _idx e = path_of ks
             /\ _depth e = Z.of_nat (List.length ks)
             /\ descend startWith (Doc ROOT) ks = Some (subdoc e).
Proof.
  revert e. induction j as [j IH] using lt_wf_ind. intros e He.
  destruct j as [|j].
  - cbn in He. injection He as <-. exists []. repeat split.
  - destruct (inspected_child j e He)
      as (p & ep & cs & k & Hle & Hp & Hb & Hk & Hd & Hi).
    destruct (IH p ltac:(lia) ep Hp) as (ks & Hks & Hdk & Hdesc).
    exists (ks ++ [k]). split; [|split].
    + rewrite path_of_snoc, <- Hks. exact Hi.
    + rewrite length_app. cbn [List.length]. lia.
    + rewrite descend_snoc, Hdesc.
      change (match ks with [] => startWith | _ :: _ => connectToField end)
        with (level_field ks).
      rewrite <- (level_field_depth p ep ks Hp Hdk), Hb. exact Hk.
Qed.

(** X8.  The path of every inspected entry spells out where its
    sub-document is: it is ["0"] followed by the indices to follow from the
    document, through [startWith] first and [connectToField] below, to
    reach the sub-document; the depth of the entry is the number of
    indices, and no other list of indices gives the same path. *)
Theorem path_addresses_subdocument (j : nat) (e : node) :
  inspected j = Some e ->
  exists ks,
    _idx e = path_of ks
    /\ _depth e = Z.of_nat (List.length ks)
    /\ descend startWith (Doc ROOT) ks = Some (subdoc e)
    /\ forall ks', _idx e = path_of ks' -> ks' = ks.
Proof.
  intros He. destruct (inspected_path j e He) as (ks & Hi & Hd & Hs).
  exists ks. repeat split; try assumption.
  intros ks' Hi'. apply path_of_inj. congruence.
Qed.

(** X9.  Every node that can be reached from the document by following
    indices through the branching arrays, no deeper than [maxDepth], is
    inspected at some step, with the path of those indices. *)
Theorem every_path_inspected (ks : list nat) (v : bson) :
  Z.of_nat (List.length ks) <= maxDepth ->
  descend startWith (Doc ROOT) ks = Some v ->
  exists j e, inspected j = Some e
              /\ _idx e = path_of ks
              /\ _depth e = Z.of_nat (List.length ks)
              /\ subdoc e = v.
Proof.
  revert v. induction ks as [|k ks IH] using rev_ind; intros v Hlen Hd.
  - injection Hd as <-. exists 0%nat, root. repeat split.
  - rewrite length_app in Hlen. cbn [List.length] in Hlen.
    rewrite descend_snoc in Hd.
    change (match ks with [] => startWith | _ :: _ => connectToField end)
      with (level_field ks) in Hd.
    destruct (descend startWith (Doc ROOT) ks) as [v'|]; [|discriminate].
    destruct (IH v' ltac:(lia) eq_refl) as (p & ep & Hp & Hi & Hdp & Hs).
    rewrite <- (level_field_depth p ep ks Hp Hdp), <- Hs in Hd.
    fold (branch (Z.of_nat p) ep) in Hd.
    destruct (branch (Z.of_nat p) ep) as [[| | | |cs| |]|] eqn:Hb;
      try discriminate.
    assert (Hk : (k < List.length cs)%nat)
      by (apply nth_error_Some; congruence).
    assert (Hpush : nth_error (pushed (Z.of_nat p) ep) k
                    = Some (child ep cs k)).
    { unfold pushed. rewrite Hb.
      destruct (Z.leb_spec (_depth ep + 1) maxDepth); [|lia].
      apply map_nth_error. rewrite nth_error_seq.
      destruct (Nat.ltb_spec k (List.length cs)); [reflexivity|lia]. }
    pose proof Hp as Hp'. rewrite inspected_discovered in Hp'.
    assert (Hlt : (p < List.length (discovered p))%nat)
      by (apply nth_error_Some; congruence).
    set (j := (List.length (discovered p) + k)%nat).
    assert (Hj : nth_error (discovered (S p)) j = Some (child ep cs k)).
    { rewrite (discovered_S_some p ep Hp'). unfold j.
      rewrite nth_error_app2 by lia.
      now replace (List.length (discovered p) + k - List.length (discovered p))%nat
        with k by lia. }
    exists j, (child ep cs k). split; [|split; [|split]].
    + rewrite inspected_discovered.
      apply (discovered_stable (S p) j); [unfold j; lia|exact Hj].
    + rewrite path_of_snoc, <- Hi. apply child_idx.
    + rewrite length_app. cbn [child _depth List.length]. lia.
    + cbn [child subdoc]. exact (nth_error_nth cs k Null Hd).
Qed.

(** X10.  The depth of an inspected entry is the number of separators in
    its path; whenever no visited sub-document has a field named [_depth]
    or [_idx] that passes the filter, the same holds between the two
    fields of every element of [result]. *)
Theorem depth_counts_separators :
  (forall j e, inspected j = Some e ->
     _depth e = Z.of_nat (count_underscore (_idx e)))
  /\ (forall a j r p d,
        existsb (inherits "_depth") visited = false ->
        existsb (inherits "_idx") visited = false ->
        reduce = Some a ->
        nth_error (result a) j = Some r ->
        field "_idx" r = Some (Str p) ->
        field "_depth" r = Some (Int d) ->
        d = Z.of_nat (count_underscore p)).
Proof.
  assert (H : forall j e, inspected j = Some e ->
                _depth e = Z.of_nat (count_underscore (_idx e))).
  { intros j e He. destruct (inspected_path j e He) as (ks & -> & -> & _).
    now rewrite count_path_of. }
  split; [exact H|].
  intros a j r p d Hd Hi Ha Hr Hp Hdd.
  destruct (record_idx a j r _ Hi Ha Hr Hp) as (e & He & Hpe).
  destruct (record_depth a j r _ Hd Ha Hr Hdd) as (e' & He' & Hde).
  rewrite He in He'. injection He' as <-.
  injection Hpe as ->. injection Hde as ->. exact (H j e He).
Qed.

(** ** The fields of an element *)

Lemma setField_fresh (k : string) (v : bson) (d : document) :
  ~ In k (map fst d) -> setField k v d = d ++ [(k, v)].
Proof.
  induction d as [|[k' v'] d IH]; cbn [setField map fst In app];
    [reflexivity|].
  intros H. destruct (String.eqb_spec k k') as [->|_].
  - elim H. now left.
  - rewrite IH; [reflexivity|]. intros Hin. apply H. now right.
Qed.

Lemma fold_setField_NoDup (kv d : document) :
  NoDup (map fst (d ++ kv)) ->
  fold_left (fun d e => setField (fst e) (snd e) d) kv d = d ++ kv.
Proof.
  revert d. induction kv as [|[k v] kv IH]; intros d H;
    cbn [fold_left fst snd].
  - now rewrite app_nil_r.
  - rewrite setField_fresh.
    + rewrite IH; rewrite <- app_assoc; [reflexivity|exact H].
    + rewrite map_app in H. cbn [map fst] in H. apply NoDup_remove_2 in H.
      intros Hin. apply H, in_or_app. now left.
Qed.

Lemma arrayToObject_NoDup (kv : document) :
  NoDup (map fst kv) -> arrayToObject kv = kv.
Proof. intros H. unfold arrayToObject. now rewrite fold_setField_NoDup. Qed.

Lemma filter_names_NoDup (cond : string * bson -> bool) (fs : document) :
  NoDup (map fst fs) -> NoDup (map fst (filter cond fs)).
Proof.
  intros H. induction fs as [|pair fs IH]; cbn [map filter]; [constructor|].
  cbn [map] in H. apply NoDup_cons_iff in H. destruct H as [Hn Hd].
  destruct (cond pair); cbn [map]; [|now apply IH].
  constructor; [|now apply IH].
  intros Hin. apply Hn. apply in_map_iff in Hin.
  destruct Hin as (y & <- & Hy). apply filter_In in Hy.
  apply in_map. tauto.
Qed.

Lemma lookup_metadata_None (k : string) (this : Z) (e : node)
    (kv : document) :
  ~ In k ["_ord"; "_depth"; "_idx"; "schema"] ->
  lookup k (metadata this e kv) = None.
Proof.
  intros H. unfold metadata.
  assert (k <> "_ord" /\ k <> "_depth" /\ k <> "_idx" /\ k <> "schema")
    as (H1 & H2 & H3 & H4)
    by (repeat split; intros ->; apply H; cbn; auto 10).
  apply String.eqb_neq in H1, H2, H3, H4.
  destruct showSchema; cbn [app lookup]; now rewrite H1, H2, H3, ?H4.
Qed.

Lemma metadata_names (this : Z) (e : node) (kv : document) :
  NoDup (map fst (metadata this e kv))
  /\ forall name, In name (map fst (metadata this e kv)) ->
       In name ["_ord"; "_depth"; "_idx"; "schema"].
Proof.
  unfold metadata. destruct showSchema; cbn [app map fst]; split.
  - repeat constructor; cbn [In]; intuition discriminate.
  - trivial.
  - repeat constructor; cbn [In]; intuition discriminate.
  - cbn [In]. intuition.
Qed.

(** X11.  The element built for a sub-document carries the
    sub-document's data: under every name other than [_ord], [_depth],
    [_idx] and [schema], the element has no field when the name is the
    branching field of the step or is in [omitFields], and otherwise has
    exactly what the sub-document has under that name (its last value,
    should the name be repeated). *)
Theorem fields_carried_over (this : Z) (e : node) (w : list node)
    (fs : document) :
  subdoc e = Doc fs ->
  this < maxElements ->
  exists d, emitted this (e :: w) = Some [Doc d]
    /\ forall k, ~ In k ["_ord"; "_depth"; "_idx"; "schema"] ->
         lookup k d
         = if String.eqb k (currChildFieldName this)
              || existsb (String.eqb k) omitFields
           then None
           else lookup k (rev fs).
Proof.
  intros Hfs Hlt. eexists. split; [exact (emitted_Doc this e w fs Hfs Hlt)|].
  intros k Hk. destruct (element_Doc this e fs Hfs) as [_ Hl].
  rewrite Hl, (lookup_metadata_None k this e fs Hk), <- filter_rev.
  destruct (String.eqb k (currChildFieldName this)
            || existsb (String.eqb k) omitFields) eqn:E.
  - rewrite lookup_filter_false; [reflexivity|].
    intros v. unfold kept. cbn [fst]. rewrite <- negb_orb, E. reflexivity.
  - rewrite lookup_filter_true; [now destruct (lookup k (rev fs))|].
    intros v. unfold kept. cbn [fst]. rewrite <- negb_orb, E. reflexivity.
Qed.

(** X12.  When the field names of a sub-document are distinct and none of
    them is [_ord], [_depth], [_idx] or [schema], its element is exactly
    the traversal's own fields, in that order, followed by the fields of
    the sub-document that pass the filter, in the order of the
    sub-document. *)
Theorem element_without_clashes (this : Z) (e : node) (w : list node)
    (fs : document) :
  subdoc e = Doc fs ->
  this < maxElements ->
  NoDup (map fst fs) ->
  (forall name, In name ["_ord"; "_depth"; "_idx"; "schema"] ->
                ~ In name (map fst fs)) ->
  emitted this (e :: w)
  = Some [Doc ([("_ord", Int this); ("_depth", Int (_depth e));
                ("_idx", Str (_idx e))]
               ++ (if showSchema then [("schema", schema fs)] else [])
               ++ filter (kept this) fs)].
Proof.
  intros Hfs Hlt Hnd Hfree.
  rewrite (emitted_Doc this e w fs Hfs Hlt), element_pairs_metadata.
  destruct (metadata_names this e fs) as [Hm Hnames].
  rewrite arrayToObject_NoDup.
  - unfold metadata. now rewrite <- app_assoc.
  - rewrite map_app. apply NoDup_app.
    + exact Hm.
    + now apply filter_names_NoDup.
    + intros name Hin Hin'. apply (Hfree name (Hnames name Hin)).
      apply in_map_iff in Hin'. destruct Hin' as (y & <- & Hy).
      apply filter_In in Hy. apply in_map. tauto.
Qed.

End Plan.

(** * The arguments of [graphDescend] *)

Lemma fold_left_pointwise {A B : Type} (f g : A -> B -> A) (l : list B)
    (a : A) :
  (forall a b, f a b = g a b) -> fold_left f l a = fold_left g l a.
Proof.
  intros H. revert a. induction l as [|b l IH]; intros a; cbn [fold_left];
    [reflexivity|].
  now rewrite H, IH.
Qed.

Lemma option_pointwise {A : Type} (x y : option A) :
  (forall r, x = Some r <-> y = Some r) -> x = y.
Proof.
  intros H. destruct x as [r|], y as [r'|]; try reflexivity.
  - symmetry. exact (proj1 (H r) eq_refl).
  - discriminate (proj1 (H r) eq_refl).
  - discriminate (proj2 (H r') eq_refl).
Qed.

Section Arguments.

Variables (c : string) (s s' : option string) (M : Z) (o o' : list string).
Variables (d : Z) (b : bool).

Hypothesis same_start : startWith c s = startWith c s'.
Hypothesis same_omitted :
  forall k, existsb (String.eqb k) o = existsb (String.eqb k) o'.

Lemma currChildFieldName_ext (this : Z) :
  currChildFieldName c s this = currChildFieldName c s' this.
Proof. unfold currChildFieldName. now rewrite same_start. Qed.

Lemma kept_ext (this : Z) (pair : string * bson) :
  kept c s o this pair = kept c s' o' this pair.
Proof. unfold kept. now rewrite currChildFieldName_ext, same_omitted. Qed.

Lemma element_ext (this : Z) (e : node) :
  element c s o b this e = element c s' o' b this e.
Proof.
  unfold element. destruct (objectToArray (subdoc e)); try reflexivity.
  unfold element_pairs. now rewrite (filter_ext _ _ (kept_ext this)).
Qed.

Lemma emitted_ext (this : Z) (w : list node) :
  emitted c s M o b this w = emitted c s' M o' b this w.
Proof.
  unfold emitted. destruct (hd_error w) as [e|]; [|reflexivity].
  now rewrite element_ext.
Qed.

Lemma children_ext (this : Z) (e : node) :
  children c s d this e = children c s' d this e.
Proof. unfold children. now rewrite same_start. Qed.

Lemma step_ext (a : acc) (this : Z) :
  step c s M o d b a this = step c s' M o' d b a this.
Proof.
  unfold step, result_step, subLevelsToInspect_step.
  rewrite emitted_ext. destruct (hd_error (subLevelsToInspect a)) as [e|];
    [|reflexivity].
  now rewrite children_ext.
Qed.

Lemma graphDescend_ext (R : document) :
  graphDescend c s M o d b R = graphDescend c s' M o' d b R.
Proof.
  unfold graphDescend, reduce. f_equal.
  destruct (range 0 (M + 1)) as [input|]; [|reflexivity].
  apply fold_left_pointwise.
  intros [a|] this; [apply step_ext|reflexivity].
Qed.

End Arguments.

Lemma reduce_budget_le (c : string) (s : option string) (M M' : Z)
    (o : list string) (d : Z) (b : bool) (R : document) (a' : acc) :
  M <= M' -> reduce c s M' o d b R = Some a' ->
  int32 (M + 1) = true ->
  exists a, reduce c s M o d b R = Some a.
Proof.
  intros Hle Ha' H32. apply (reduce_total _ _ _ _ _ _ _ H32).
  apply forallb_forall.
  intros [i e] Hin. destruct (In_nth_error _ _ Hin) as (j & Hj).
  apply nth_error_visited in Hj. destruct Hj as (-> & Hlt & He).
  pose proof (reduce_evaluable _ _ _ _ _ _ _ _ Ha') as Hev.
  rewrite forallb_forall in Hev. apply Hev.
  apply visited_In; [assumption|lia].
Qed.

(** X13.  [startWith] left out, [null], empty, or equal to
    [connectToField] all give the same plan: the first level is then
    entered through [connectToField]. *)
Theorem startWith_default (c : string) (s : option string) (M : Z)
    (o : list string) (d : Z) (b : bool) (R : document) :
  s = None \/ s = Some EmptyString \/ s = Some c ->
  graphDescend c s M o d b R = graphDescend c None M o d b R.
Proof.
  intros H. apply graphDescend_ext; [|reflexivity].
  destruct H as [->|[->| ->]]; try reflexivity. now destruct c.
Qed.

(** X14.  [omitFields] is used as a set: two lists with the same members,
    in whatever order and however often repeated, give the same plan. *)
Theorem omitFields_as_set (c : string) (s : option string) (M : Z)
    (o o' : list string) (d : Z) (b : bool) (R : document) :
  (forall k, In k o <-> In k o') ->
  graphDescend c s M o d b R = graphDescend c s M o' d b R.
Proof.
  intros H. apply graphDescend_ext; [reflexivity|]. intros k.
  apply eq_true_iff_eq. rewrite !existsb_eqb_In. apply H.
Qed.

(** X15.  A larger [maxElements] only extends [result]: when the plan
    succeeds with [M'], it succeeds with every [M <= M'] that [$range]
    accepts ([M + 1] is a 32-bit integer), and the elements at the
    positions below [M] are the same in both; with any other [M] it is
    aborted. *)
Theorem maxElements_prefix (c : string) (s : option string) (M M' : Z)
    (o : list string) (d : Z) (b : bool) (R : document) (a' : acc) :
  M <= M' ->
  reduce c s M' o d b R = Some a' ->
  if int32 (M + 1)
  then exists a, reduce c s M o d b R = Some a
         /\ forall j, Z.of_nat j < M ->
              nth_error (result a) j = nth_error (result a') j
  else reduce c s M o d b R = None.
Proof.
  intros Hle Ha'. destruct (int32 (M + 1)) eqn:H32.
  2:{ now rewrite reduce_guard, H32. }
  destruct (reduce_budget_le c s M M' o d b R a' Hle Ha' H32) as (a & Ha).
  exists a. split; [assumption|]. intros j Hj. apply option_pointwise.
  intros r. rewrite (result_nth _ _ _ _ _ _ _ a j r Ha).
  rewrite (result_nth _ _ _ _ _ _ _ a' j r Ha').
  split; intros (e & He & [[_ Hel]|[Heq _]]); try lia;
    exists e; (split; [assumption|]); left; (split; [lia|assumption]).
Qed.

(** X16.  Once [maxElements] is at least the number of nodes the
    traversal can reach, raising it further changes nothing as long as
    [$range] accepts it: up to [2^31 - 2] the plan has the same outcome
    and the same value, and beyond that it is aborted. *)
Theorem maxElements_sufficient (c : string) (s : option string) (M M' : Z)
    (o : list string) (d : Z) (b : bool) (R : document) :
  Z.of_nat (reachable c s d R) <= M -> M <= M' ->
  graphDescend c s M' o d b R
  = if M' <=? 2147483646 then graphDescend c s M o d b R else None.
Proof.
  intros Hr Hle. unfold graphDescend.
  pose proof (subtree_size_pos c (Z.to_nat (maxDepth d)) (startWith c s)
                (Doc R)) as Hpos.
  fold (reachable c s d R) in Hpos.
  destruct (Z.leb_spec M' 2147483646) as [Hfit|Hbig].
  2:{ rewrite reduce_guard.
      replace (int32 (M' + 1)) with false; [reflexivity|].
      symmetry. apply not_true_iff_false. rewrite int32_spec. lia. }
  assert (H32' : int32 (M' + 1) = true) by (apply int32_spec; lia).
  assert (H32 : int32 (M + 1) = true) by (apply int32_spec; lia).
  f_equal.
  destruct (reduce c s M o d b R) as [a|] eqn:Ha.
  - assert (Hex : exists a', reduce c s M' o d b R = Some a').
    { apply (reduce_total _ _ _ _ _ _ _ H32'). apply forallb_forall.
      intros [i e] Hin. destruct (In_nth_error _ _ Hin) as (j & Hj).
      apply nth_error_visited in Hj. destruct Hj as (-> & Hlt & He).
      assert (j < reachable c s d R)%nat
        by (apply inspected_reachable; eauto).
      pose proof (reduce_evaluable _ _ _ _ _ _ _ _ Ha) as Hev.
      rewrite forallb_forall in Hev. apply Hev.
      apply visited_In; [assumption|lia]. }
    destruct Hex as (a' & Ha'). rewrite Ha'. f_equal.
    assert (Hres : result a' = result a).
    { apply nth_error_ext. intros j. apply option_pointwise. intros r.
      rewrite (result_nth _ _ _ _ _ _ _ a' j r Ha').
      rewrite (result_nth _ _ _ _ _ _ _ a j r Ha).
      split; intros (e & He & Hcase);
        assert (j < reachable c s d R)%nat
          by (apply inspected_reachable; eauto);
        exists e; (split; [assumption|]); left;
        destruct Hcase as [[_ Hel]|[Heq _]]; try lia;
        (split; [lia|assumption]). }
    assert (Hsub : subLevelsToInspect a' = subLevelsToInspect a).
    { destruct (reduce_shape _ _ _ _ _ _ _ a Ha) as (_ & _ & _ & ->).
      destruct (reduce_shape _ _ _ _ _ _ _ a' Ha') as (_ & _ & _ & ->).
      rewrite (proj2 (residual_nil c s d R (Z.to_nat (M + 1)))) by lia.
      apply residual_nil. lia. }
    destruct a, a'. cbn [result subLevelsToInspect] in Hres, Hsub.
    now subst.
  - destruct (reduce c s M' o d b R) as [a'|] eqn:Ha'; [|reflexivity].
    destruct (reduce_budget_le c s M M' o d b R a' Hle Ha' H32)
      as (a & Ha'').
    congruence.
Qed.

Lemma filter_all {A : Type} (p : A -> bool) (l : list A) :
  (forall x, In x l -> p x = true) -> filter p l = l.
Proof.
  induction l as [|x l IH]; intros H; cbn [filter]; [reflexivity|].
  rewrite (H x (or_introl eq_refl)), IH; [reflexivity|].
  intros y Hy. apply H. now right.
Qed.

Lemma filter_none {A : Type} (p : A -> bool) (l : list A) :
  (forall x, In x l -> p x = false) -> filter p l = [].
Proof.
  induction l as [|x l IH]; intros H; cbn [filter]; [reflexivity|].
  rewrite (H x (or_introl eq_refl)). apply IH.
  intros y Hy. apply H. now right.
Qed.

Section Depths.

Variables (c : string) (s : option string) (d d' : Z) (R : document).

Hypothesis depth_le : maxDepth d <= maxDepth d'.

Lemma pushed_filter (this : Z) (e : node) :
  filter (fun x => _depth x <=? maxDepth d) (pushed c s d' this e)
  = pushed c s d this e.
Proof.
  unfold pushed. destruct (branch c s this e) as [[| | | |cs| |]|];
    try reflexivity.
  destruct (Z.leb_spec (_depth e + 1) (maxDepth d'));
    destruct (Z.leb_spec (_depth e + 1) (maxDepth d));
    try reflexivity; try lia.
  - apply filter_all. intros x Hx. apply in_map_iff in Hx.
    destruct Hx as (k & <- & _). cbn [child _depth]. now apply Z.leb_le.
  - apply filter_none. intros x Hx. apply in_map_iff in Hx.
    destruct Hx as (k & <- & _). cbn [child _depth]. apply Z.leb_gt. lia.
Qed.

Lemma worklist_filter (n : nat) :
  worklist c s d R n
  = filter (fun x => _depth x <=? maxDepth d) (worklist c s d' R n).
Proof.
  induction n as [|n IH].
  - cbn [worklist initialValue subLevelsToInspect filter _depth].
    destruct (Z.leb_spec 0 (maxDepth d)); [reflexivity|].
    pose proof (maxDepth_range d). lia.
  - destruct (worklist c s d' R n) as [|e w] eqn:E.
    + rewrite (worklist_nil_S c s d R n IH).
      now rewrite (worklist_nil_S c s d' R n E).
    + rewrite (worklist_S_cons c s d' R n e w E), filter_app, pushed_filter.
      cbn [filter] in IH.
      destruct (Z.leb_spec (_depth e) (maxDepth d)) as [Hle|Hgt].
      * exact (worklist_S_cons c s d R n e _ IH).
      * assert (Hw : filter (fun x => _depth x <=? maxDepth d) w = []).
        { apply filter_none. intros x Hx. apply Z.leb_gt.
          pose proof (worklist_sorted c s d' R n e x w E Hx). lia. }
        rewrite Hw in IH |- *. rewrite (worklist_nil_S c s d R n IH).
        unfold pushed. destruct (branch c s (Z.of_nat n) e) as [[| | | |cs| |]|];
          try reflexivity.
        destruct (Z.leb_spec (_depth e + 1) (maxDepth d)); [lia|reflexivity].
Qed.

Lemma inspected_deeper (j : nat) (e : node) :
  inspected c s d R j = Some e -> inspected c s d' R j = Some e.
Proof.
  unfold inspected. rewrite worklist_filter.
  destruct (worklist c s d' R j) as [|e' w] eqn:E; [discriminate|].
  cbn [filter hd_error].
  destruct (Z.leb_spec (_depth e') (maxDepth d)) as [Hle|Hgt]; [trivial|].
  rewrite filter_none; [discriminate|].
  intros x Hx. apply Z.leb_gt.
  pose proof (worklist_sorted c s d' R j e' x w E Hx). lia.
Qed.

End Depths.

(** X17.  A larger [maxDepth] only adds to the traversal: every entry
    inspected with the smaller bound is inspected at the same step with
    the larger one, and when the plan succeeds with the larger bound it
    succeeds with the smaller one, every element of whose [result] is, at
    the same position, in the [result] for the larger bound. *)
Theorem maxDepth_prefix (c : string) (s : option string) (M : Z)
    (o : list string) (d d' : Z) (b : bool) (R : document) :
  maxDepth d <= maxDepth d' ->
  (forall j e, inspected c s d R j = Some e -> inspected c s d' R j = Some e)
  /\ (forall a', reduce c s M o d' b R = Some a' ->
        exists a, reduce c s M o d b R = Some a
          /\ forall j r, nth_error (result a) j = Some r ->
               nth_error (result a') j = Some r).
Proof.
  intros Hle. split; [exact (inspected_deeper c s d d' R Hle)|].
  intros a' Ha'.
  assert (Hex : exists a, reduce c s M o d b R = Some a).
  { apply (reduce_total _ _ _ _ _ _ _
             (reduce_int32 _ _ _ _ _ _ _ _ Ha')).
    apply forallb_forall.
    intros [i e] Hin. destruct (In_nth_error _ _ Hin) as (j & Hj).
    apply nth_error_visited in Hj. destruct Hj as (-> & Hlt & He).
    pose proof (reduce_evaluable _ _ _ _ _ _ _ _ Ha') as Hev.
    rewrite forallb_forall in Hev. apply Hev.
    apply visited_In; [|assumption].
    exact (inspected_deeper c s d d' R Hle j e He). }
  destruct Hex as (a & Ha). exists a. split; [assumption|].
  intros j r Hr. apply (result_nth _ _ _ _ _ _ _ a j r Ha) in Hr.
  destruct Hr as (e & He & Hcase).
  apply (result_nth _ _ _ _ _ _ _ a' j r Ha'). exists e.
  split; [exact (inspected_deeper c s d d' R Hle j e He)|exact Hcase].
Qed.

(** * Concrete runs *)

(** The examples of the README on its document: [outputExample1] has the
    twelve elements shown there, [outputExample2] stops after five elements
    with the warning, [outputExample3] omits [val], and [outputExample4]
    stops at depth 1. *)
Example outputExample1 :
  option_map (fun a => (map (field "_idx") (result a),
                        map (field "elmntId") (result a),
                        subLevelsToInspect a))
    (reduce "children" (Some "properties") 25 [] 100 false sample)
  = Some (map (fun s => Some (Str s))
            ["0"; "0_0"; "0_1"; "0_0_0"; "0_0_1"; "0_0_2"; "0_1_0"; "0_1_1";
             "0_1_2"; "0_0_2_0"; "0_0_2_1"; "0_0_2_2"],
          map (fun s => Some (Str s))
            ["0"; "0.0"; "0.1"; "0.0.0"; "0.0.1"; "0.0.2"; "0.1.0"; "0.1.1";
             "0.1.2"; "0.0.2.0"; "0.0.2.1"; "0.0.2.2"],
          []).
Proof. reflexivity. Qed.

Example outputExample2 :
  option_map (fun a => map (field "_ord") (result a))
    (reduce "children" (Some "properties") 5 [] 100 false sample)
  = Some [Some (Int 0); Some (Int 1); Some (Int 2); Some (Int 3);
          Some (Int 4); None]
  /\ option_map (fun a => nth_error (result a) 5)
       (reduce "children" (Some "properties") 5 [] 100 false sample)
     = Some (Some WARNING).
Proof. split; reflexivity. Qed.

Example outputExample3 :
  option_map (fun a => nth_error (result a) 1)
    (reduce "children" (Some "properties") 25 ["_id"; "val"] 100 false sample)
  = Some (Some (Doc [("_ord", Int 1); ("_depth", Int 1); ("_idx", Str "0_0");
                     ("elmntId", Str "0.0")])).
Proof. reflexivity. Qed.

Example outputExample4 :
  option_map (fun a => map (field "_idx") (result a))
    (reduce "children" (Some "properties") 25 [] 1 false sample)
  = Some [Some (Str "0"); Some (Str "0_0"); Some (Str "0_1")].
Proof. reflexivity. Qed.

(** The claim C1 fails on the example of the README with [maxElements = 5]:
    the value of the plan is not the array of emitted elements, and six
    entries of the work-list come with it.  With [maxElements = 2^31 - 1]
    the plan has no value at all. *)
Lemma graphDescend_value_counterexample :
  graphDescend "children" (Some "properties") 5 [] 100 false sample
  <> option_map (fun a => Arr (result a))
       (reduce "children" (Some "properties") 5 [] 100 false sample)
  /\ option_map (fun a => List.length (subLevelsToInspect a))
       (reduce "children" (Some "properties") 5 [] 100 false sample)
     = Some 6%nat
  /\ graphDescend "children" (Some "properties") 2147483647 [] 100 false
       sample = None.
Proof.
  split; [vm_compute; discriminate|]. split; reflexivity.
Qed.

Lemma graphDescend_value_witness :
  int32 (5 + 1) = true
  /\ forallb evaluable (visited "children" (Some "properties") 5 100 sample)
     = true
  /\ exists v rs,
       graphDescend "children" (Some "properties") 5 [] 100 false sample
       = Some v
       /\ v = Doc [("result",
                    Arr (rs ++ overrun "children" (Some "properties") 5 100
                                 sample));
                   ("subLevelsToInspect",
                    Arr (map node_value
                           (worklist "children" (Some "properties") 100
                              sample (Z.to_nat (5 + 1)))))].
Proof.
  split; [reflexivity|]. split; [reflexivity|].
  destruct (graphDescend_value "children" (Some "properties") 5 [] 100 false
              sample) as (H1 & _ & H2).
  destruct (H1 eq_refl eq_refl) as (v & Hv).
  destruct (H2 v Hv) as (rs & Hrs & _).
  exists v, rs. split; [exact Hv|exact Hrs].
Defined.

(** The claim C2 fails on an array of scalars: the branching field of the
    document does not hold a sequence of documents, and yet its element is
    appended to the work-list as a child; with [maxElements = 0] it is
    there in the value of the plan. *)
Lemma children_appended_counterexample :
  sequence_of_documents
    (getField "children" (Some (Doc [("children", Arr [Int 5])]))) = false
  /\ subLevelsToInspect_step "children" None 100
       [ {| _depth := 0; _idx := "0";
            subdoc := Doc [("children", Arr [Int 5])] |} ] 0
     = [ {| _depth := 1; _idx := "0_0"; subdoc := Int 5 |} ]
  /\ graphDescend "children" None 0 [] 100 false [("children", Arr [Int 5])]
     = Some (Doc [("result", Arr [WARNING]);
                  ("subLevelsToInspect",
                   Arr [Doc [("_depth", Int 1); ("_idx", Str "0_0");
                             ("subdoc", Int 5)]])]).
Proof. repeat split. Qed.

Lemma children_appended_witness :
  subdoc {| _depth := 0; _idx := "0"; subdoc := Doc sample |} = Doc sample
  /\ 0 < 25
  /\ emitted "children" (Some "properties") 25 [] false 0
       [ {| _depth := 0; _idx := "0"; subdoc := Doc sample |} ]
     = Some [Doc [("_ord", Int 0); ("_depth", Int 0); ("_idx", Str "0");
                  ("elmntId", Str "0"); ("val", Int 999)]].
Proof.
  split; [reflexivity|]. split; [lia|].
  apply (proj2 (children_appended "children" (Some "properties") 25 [] 100
                  false 0 {| _depth := 0; _idx := "0"; subdoc := Doc sample |}
                  [])
           sample eq_refl).
  lia.
Defined.

(** The claim C3 fails on a document with a field [_depth] of its own: the
    element of its child has the smaller depth and the larger order. *)
Lemma breadth_first_order_counterexample :
  exists a ra rb da db oa ob,
    reduce "children" None 25 [] 100 false
      [("_depth", Int 5); ("children", Arr [Doc []])] = Some a
    /\ nth_error (result a) 1 = Some ra
    /\ nth_error (result a) 0 = Some rb
    /\ field "_depth" ra = Some (Int da)
    /\ field "_depth" rb = Some (Int db)
    /\ field "_ord" ra = Some (Int oa)
    /\ field "_ord" rb = Some (Int ob)
    /\ da < db /\ ~ oa < ob.
Proof.
  eexists. eexists. eexists. exists 1, 5, 1, 0.
  split; [vm_compute; reflexivity|].
  repeat (split; [reflexivity|]). lia.
Qed.

Lemma breadth_first_order_witness :
  exists a,
    existsb (inherits "children" None [] "_ord")
      (visited "children" None 25 100 two_children) = false
    /\ existsb (inherits "children" None [] "_depth")
         (visited "children" None 25 100 two_children) = false
    /\ existsb (inherits "children" None [] "_idx")
         (visited "children" None 25 100 two_children) = false
    /\ reduce "children" None 25 [] 100 false two_children = Some a
    /\ (forall ra rb da db oa ob,
          In ra (result a) -> In rb (result a) ->
          field "_depth" ra = Some (Int da) ->
          field "_depth" rb = Some (Int db) ->
          field "_ord" ra = Some (Int oa) ->
          field "_ord" rb = Some (Int ob) ->
          da < db -> oa < ob).
Proof.
  eexists. split; [reflexivity|]. split; [reflexivity|].
  split; [reflexivity|]. split; [vm_compute; reflexivity|].
  apply (proj2 (proj2 (breadth_first_order "children" None 25 [] 100 false
                         two_children)));
    reflexivity.
Defined.

(** The claim C4 fails for a negative [maxElements]: with [-1] the
    document with three nodes has more nodes than [maxElements], and the
    output has no warning.  It also fails on an array with a [null]
    element, which is not a sequence of documents: the document is the only
    node the specification counts, and with [maxElements = 1] the output
    has the warning. *)
Lemma overrun_marker_counterexample :
  (exists a,
     reduce "children" None (-1) [] 100 false two_children = Some a
     /\ -1 < Z.of_nat (spec_reachable "children" None 100 two_children)
     /\ existsb single_field (result a) = false)
  /\ (exists a,
        reduce "children" None 1 [] 100 false [("children", Arr [Null])]
        = Some a
        /\ spec_reachable "children" None 100 [("children", Arr [Null])]
           = 1%nat
        /\ existsb single_field (result a) = true).
Proof.
  split; eexists; (split; [vm_compute; reflexivity|]);
    split; reflexivity.
Qed.

(** C4 on a document with three nodes and [maxElements = 1]. *)
Lemma overrun_marker_witness :
  exists a,
    reduce "children" None 1 [] 100 false two_children = Some a
    /\ (existsb single_field (result a) = true
        <-> 0 <= 1 < Z.of_nat (reachable "children" None 100 two_children))
    /\ result a
       = [Doc [("_ord", Int 0); ("_depth", Int 0); ("_idx", Str "0");
               ("name", Str "r")];
          WARNING].
Proof.
  eexists. split; [vm_compute; reflexivity|].
  split; [|reflexivity].
  apply (proj2 (overrun_marker "children" None 1 [] 100 false two_children));
    reflexivity.
Defined.

(** The claim C5 fails when the omission set names [_ord]: the element
    still has a field of that name. *)
Lemma omitted_fields_absent_counterexample :
  exists a r,
    reduce "children" None 25 ["_ord"] 100 false [("val", Int 1)] = Some a
    /\ nth_error (result a) 0 = Some r
    /\ r <> WARNING
    /\ In "_ord" ["_ord"]
    /\ field "_ord" r = Some (Int 0).
Proof.
  eexists. eexists. split; [vm_compute; reflexivity|].
  split; [reflexivity|]. split; [discriminate|].
  split; [left|]; reflexivity.
Qed.

Lemma omitted_fields_absent_witness :
  exists a r,
    reduce "children" None 25 ["name"] 100 false two_children = Some a
    /\ nth_error (result a) 0 = Some r
    /\ r <> WARNING
    /\ (In "name" ["name"] \/ "name" = currChildFieldName "children" None 0)
    /\ field "name" r = None.
Proof.
  eexists. eexists. split; [vm_compute; reflexivity|].
  match goal with
  | |- nth_error (result ?a) 0 = Some ?r /\ _ =>
      assert (Ha : reduce "children" None 25 ["name"] 100 false two_children
                   = Some a) by (vm_compute; reflexivity);
      assert (Hr : nth_error (result a) 0 = Some r) by reflexivity;
      assert (Hw : r <> WARNING) by discriminate
  end.
  assert (H : In "name" ["name"]
              \/ "name" = currChildFieldName "children" None 0)
    by (left; left; reflexivity).
  split; [exact Hr|]. split; [exact Hw|]. split; [exact H|].
  destruct (omitted_fields_absent "children" None 25 ["name"] 100 false
              two_children _ 0 _ "name" Ha Hr Hw H) as (e & _ & _ & _ & Hn).
  apply Hn. intros [E|[E|[E|[E|[]]]]]; discriminate E.
Defined.

(** The claim C6 fails on a document with a field [_depth] of its own:
    the [_depth] of its element is beyond the clamped [maxDepth]. *)
Lemma depth_bound_counterexample :
  exists a r d,
    reduce "children" None 25 [] 100 false [("_depth", Int 1000)] = Some a
    /\ In r (result a)
    /\ field "_depth" r = Some (Int d)
    /\ maxDepth 100 < d.
Proof.
  eexists. eexists. exists 1000. split; [vm_compute; reflexivity|].
  split; [left; reflexivity|]. split; [reflexivity|]. reflexivity.
Qed.

Lemma depth_bound_witness :
  exists a r,
    existsb (inherits "children" (Some "properties") [] "_depth")
      (visited "children" (Some "properties") 25 1 sample) = false
    /\ reduce "children" (Some "properties") 25 [] 1 false sample = Some a
    /\ nth_error (result a) 2 = Some r
    /\ field "_depth" r = Some (Int 1)
    /\ 0 <= 1 <= maxDepth 1.
Proof.
  eexists. eexists. split; [reflexivity|].
  split; [vm_compute; reflexivity|].
  match goal with
  | |- nth_error (result ?a) 2 = Some ?r /\ _ =>
      assert (Ha : reduce "children" (Some "properties") 25 [] 1 false sample
                   = Some a) by (vm_compute; reflexivity);
      assert (Hr : nth_error (result a) 2 = Some r) by reflexivity;
      assert (Hf : field "_depth" r = Some (Int 1)) by reflexivity
  end.
  split; [exact Hr|]. split; [exact Hf|].
  exact (proj1 (proj2 (proj2 (proj2
           (depth_bound "children" (Some "properties") 25 [] 1 false
              sample)))) _ _ 1 eq_refl Ha (nth_error_In _ _ Hr) Hf).
Defined.

(** The claim C7 fails on a document with a field [_idx] of its own: its
    element and the element of its child have the same path, and the path
    of the first element is not ["0"]. *)
Lemma paths_unique_counterexample :
  exists a r0 r1,
    reduce "children" None 25 [] 100 false
      [("_idx", Str "0_0"); ("children", Arr [Doc []])] = Some a
    /\ nth_error (result a) 0 = Some r0
    /\ nth_error (result a) 1 = Some r1
    /\ r0 <> WARNING /\ r1 <> WARNING
    /\ field "_idx" r0 = field "_idx" r1
    /\ field "_idx" r0 = Some (Str "0_0").
Proof.
  eexists. eexists. eexists. split; [vm_compute; reflexivity|].
  split; [reflexivity|]. split; [reflexivity|].
  split; [discriminate|]. split; [discriminate|]. split; reflexivity.
Qed.

Lemma paths_unique_witness :
  int32 (25 + 1) = true
  /\ forallb (labelled "children" (Some "properties") [] "_idx")
       (visited "children" (Some "properties") 25 100 sample) = true
  /\ exists a,
       reduce "children" (Some "properties") 25 [] 100 false sample = Some a
       /\ (forall i j ri rj s,
             nth_error (result a) i = Some ri ->
             nth_error (result a) j = Some rj ->
             field "_idx" ri = Some s -> field "_idx" rj = Some s -> i = j)
       /\ (forall r, nth_error (result a) 0 = Some r -> r <> WARNING ->
             field "_idx" r = Some (Str "0")).
Proof.
  split; [reflexivity|]. split; [reflexivity|].
  destruct (proj2 (proj2 (proj2
              (paths_unique "children" (Some "properties") 25 [] 100 false
                 sample))) eq_refl eq_refl) as (a & Ha & H1 & H2 & _).
  exists a. auto.
Defined.

(** The claim C8 fails on a document with a field [_ord] of its own: its
    element, the first one, has the order [7], not [0]. *)
Lemma order_contiguous_counterexample :
  exists a r,
    reduce "children" None 25 [] 100 false [("_ord", Int 7)] = Some a
    /\ nth_error (result a) 0 = Some r
    /\ r <> WARNING
    /\ field "_ord" r = Some (Int 7)
    /\ field "_ord" r <> Some (Int 0).
Proof.
  eexists. eexists. split; [vm_compute; reflexivity|].
  split; [reflexivity|]. split; [discriminate|].
  split; [reflexivity|discriminate].
Qed.

Lemma order_contiguous_witness :
  int32 (25 + 1) = true
  /\ forallb (labelled "children" (Some "properties") [] "_ord")
       (visited "children" (Some "properties") 25 100 sample) = true
  /\ exists a,
       reduce "children" (Some "properties") 25 [] 100 false sample = Some a
       /\ forall j r, nth_error (result a) j = Some r ->
            (Z.of_nat j < 25 /\ field "_ord" r = Some (Int (Z.of_nat j)))
            \/ (Z.of_nat j = 25 /\ r = WARNING).
Proof.
  split; [reflexivity|]. split; [reflexivity|].
  apply (proj2 (proj2 (order_contiguous "children" (Some "properties") 25 []
                         100 false sample)));
    reflexivity.
Defined.

(** The claim C9 fails on a document with a field [schema] of its own: the
    [schema] of its element is that field, not the list of its fields. *)
Lemma schema_of_unfiltered_counterexample :
  exists a r,
    reduce "children" None 25 [] 100 true [("schema", Int 1)] = Some a
    /\ nth_error (result a) 0 = Some r
    /\ r <> WARNING
    /\ field "schema" r = Some (Int 1)
    /\ forall l, field "schema" r <> Some (Arr l).
Proof.
  eexists. eexists. split; [vm_compute; reflexivity|].
  split; [reflexivity|]. split; [discriminate|].
  split; [reflexivity|]. intros l. discriminate.
Qed.

Lemma schema_of_unfiltered_witness :
  exists a r,
    true = true
    /\ reduce "children" None 25 ["n"] 100 true typed_fields = Some a
    /\ nth_error (result a) 0 = Some r
    /\ r <> WARNING
    /\ field "n" r = None
    /\ field "schema" r
       = Some (Arr [Doc [("fieldname", Str "_id"); ("type", Str "objectId")];
                    Doc [("fieldname", Str "n"); ("type", Str "long")];
                    Doc [("fieldname", Str "ratio"); ("type", Str "double")];
                    Doc [("fieldname", Str "since"); ("type", Str "date")];
                    Doc [("fieldname", Str "count"); ("type", Str "int")];
                    Doc [("fieldname", Str "children");
                         ("type", Str "array")]]).
Proof.
  eexists. eexists. split; [reflexivity|].
  split; [vm_compute; reflexivity|].
  match goal with
  | |- nth_error (result ?a) 0 = Some ?r /\ _ =>
      assert (Ha : reduce "children" None 25 ["n"] 100 true typed_fields
                   = Some a) by (vm_compute; reflexivity);
      assert (Hr : nth_error (result a) 0 = Some r) by reflexivity;
      assert (Hw : r <> WARNING) by discriminate
  end.
  split; [exact Hr|]. split; [exact Hw|]. split; [reflexivity|].
  destruct (schema_of_unfiltered "children" None 25 ["n"] 100 true
              typed_fields _ 0 _ eq_refl Ha Hr Hw) as (e & He & Hs).
  vm_compute in He. injection He as <-.
  destruct (Hs eq_refl) as (fs & Hfs & Hf & _).
  injection Hfs as <-. exact Hf.
Defined.


(** The further properties, each on a run. *)
Lemma negative_maxElements_witness :
  -1 < 0
  /\ graphDescend "children" None (-1) [] 100 false two_children
     = Some (Doc [("result", Arr []);
                  ("subLevelsToInspect",
                   Arr [Doc [("_depth", Int 0); ("_idx", Str "0");
                             ("subdoc", Doc two_children)]])]).
Proof.
  assert (H : -1 < 0) by lia. split; [exact H|].
  exact (negative_maxElements "children" None (-1) [] 100 false two_children
           H).
Defined.

Lemma evaluation_succeeds_iff_witness :
  (int32 (25 + 1) = true
   /\ forallb evaluable (visited "children" (Some "properties") 25 100 sample)
      = true)
  /\ exists v,
       graphDescend "children" (Some "properties") 25 [] 100 false sample
       = Some v.
Proof.
  assert (H : int32 (25 + 1) = true
              /\ forallb evaluable
                   (visited "children" (Some "properties") 25 100 sample)
                 = true) by (split; reflexivity).
  split; [exact H|].
  exact (proj2 (evaluation_succeeds_iff "children" (Some "properties") 25 []
                  100 false sample) H).
Defined.

Lemma result_length_witness :
  exists a,
    reduce "children" (Some "properties") 5 [] 100 false sample = Some a
    /\ List.length (result a)
       = Nat.min (Z.to_nat (5 + 1))
           (reachable "children" (Some "properties") 100 sample)
    /\ List.length (result a) = 6%nat.
Proof.
  eexists. split; [vm_compute; reflexivity|]. split; [|reflexivity].
  apply (result_length "children" (Some "properties") 5 [] 100 false sample).
  vm_compute; reflexivity.
Defined.

Lemma residual_worklist_witness :
  exists a,
    0 <= 25
    /\ reduce "children" None 25 [] 100 false two_children = Some a
    /\ (subLevelsToInspect a = []
        <-> Z.of_nat (reachable "children" None 100 two_children) <= 25 + 1)
    /\ subLevelsToInspect a = [].
Proof.
  eexists. split; [lia|]. split; [vm_compute; reflexivity|].
  split; [|reflexivity].
  refine (proj1 (residual_worklist "children" None 25 [] 100 false
                   two_children _ _ _)); [lia|vm_compute; reflexivity].
Defined.

Lemma residual_entries_pending_witness :
  exists a e,
    reduce "children" (Some "properties") 5 [] 100 false sample = Some a
    /\ nth_error (subLevelsToInspect a) 0 = Some e
    /\ inspected "children" (Some "properties") 100 sample
         (Z.to_nat (5 + 1) + 0) = Some e
    /\ _idx e = "0_1_0".
Proof.
  eexists. eexists. split; [vm_compute; reflexivity|].
  split; [vm_compute; reflexivity|]. split; [|reflexivity].
  refine (residual_entries_pending "children" (Some "properties") 5 [] 100
            false sample _ 0 _ _ _); vm_compute; reflexivity.
Defined.

Lemma overrun_entry_lost_witness :
  exists a e,
    0 <= 1
    /\ reduce "children" None 1 [] 100 false two_children = Some a
    /\ inspected "children" None 100 two_children (Z.to_nat 1) = Some e
    /\ _idx e = "0_0"
    /\ nth_error (result a) (Z.to_nat 1) = Some WARNING
    /\ ~ In e (subLevelsToInspect a).
Proof.
  eexists. eexists. split; [lia|]. split; [vm_compute; reflexivity|].
  split; [vm_compute; reflexivity|]. split; [reflexivity|].
  match goal with
  | |- nth_error (result ?a) _ = _ /\ ~ In ?e _ =>
      assert (HM : 0 <= 1) by lia;
      assert (Ha : reduce "children" None 1 [] 100 false two_children
                   = Some a) by (vm_compute; reflexivity);
      assert (He : inspected "children" None 100 two_children (Z.to_nat 1)
                   = Some e) by (vm_compute; reflexivity);
      destruct (overrun_entry_lost "children" None 1 [] 100 false
                  two_children a e HM Ha He) as (H1 & _ & H3)
  end.
  split; [exact H1|exact H3].
Defined.

Lemma childless_document_witness :
  1 <= 25
  /\ (maxDepth 100 = 0
      \/ isArray (getField (startWith "children" None)
                    (Some (Doc [("val", Int 1)]))) = false
      \/ getField (startWith "children" None) (Some (Doc [("val", Int 1)]))
         = Some (Arr []))
  /\ graphDescend "children" None 25 [] 100 false [("val", Int 1)]
     = Some (Doc [("result",
                   Arr [Doc [("_ord", Int 0); ("_depth", Int 0);
                             ("_idx", Str "0"); ("val", Int 1)]]);
                  ("subLevelsToInspect", Arr [])]).
Proof.
  assert (H1 : 1 <= 25) by lia.
  assert (H2 : maxDepth 100 = 0
               \/ isArray (getField (startWith "children" None)
                             (Some (Doc [("val", Int 1)]))) = false
               \/ getField (startWith "children" None)
                    (Some (Doc [("val", Int 1)])) = Some (Arr []))
    by (right; left; reflexivity).
  split; [exact H1|]. split; [exact H2|].
  exact (childless_document "children" None 25 [] 100 false [("val", Int 1)]
           H1 H2).
Defined.

Lemma path_addresses_subdocument_witness :
  exists e,
    inspected "children" (Some "properties") 100 sample 10 = Some e
    /\ _idx e = "0_0_2_1"
    /\ exists ks,
         _idx e = path_of ks
         /\ _depth e = Z.of_nat (List.length ks)
         /\ descend "children" (startWith "children" (Some "properties"))
              (Doc sample) ks = Some (subdoc e).
Proof.
  eexists. split; [vm_compute; reflexivity|]. split; [reflexivity|].
  match goal with
  | |- exists ks, _idx ?e = _ /\ _ =>
      assert (He : inspected "children" (Some "properties") 100 sample 10
                   = Some e) by (vm_compute; reflexivity);
      destruct (path_addresses_subdocument "children" (Some "properties")
                  100 sample 10 e He) as (ks & H1 & H2 & H3 & _)
  end.
  exists ks. split; [exact H1|]. split; [exact H2|exact H3].
Defined.

Lemma every_path_inspected_witness :
  exists v,
    Z.of_nat (List.length [0; 2; 1]%nat) <= maxDepth 100
    /\ descend "children" (startWith "children" (Some "properties"))
         (Doc sample) [0; 2; 1]%nat = Some v
    /\ field "elmntId" v = Some (Str "0.0.2.1")
    /\ exists j e,
         inspected "children" (Some "properties") 100 sample j = Some e
         /\ _idx e = path_of [0; 2; 1]%nat
         /\ subdoc e = v.
Proof.
  eexists.
  assert (H1 : Z.of_nat (List.length [0; 2; 1]%nat) <= maxDepth 100)
    by (vm_compute; congruence).
  split; [exact H1|]. split; [vm_compute; reflexivity|].
  split; [reflexivity|].
  match goal with
  | |- exists j e, _ /\ _ /\ subdoc e = ?v =>
      assert (H2 : descend "children"
                     (startWith "children" (Some "properties")) (Doc sample)
                     [0; 2; 1]%nat = Some v) by (vm_compute; reflexivity);
      destruct (every_path_inspected "children" (Some "properties") 100
                  sample [0; 2; 1]%nat v H1 H2)
        as (j & e & Hj & Hi & _ & Hs)
  end.
  exists j, e. split; [exact Hj|]. split; [exact Hi|exact Hs].
Defined.

Lemma depth_counts_separators_witness :
  exists e,
    inspected "children" (Some "properties") 100 sample 10 = Some e
    /\ _idx e = "0_0_2_1"
    /\ _depth e = Z.of_nat (count_underscore (_idx e)).
Proof.
  eexists. split; [vm_compute; reflexivity|]. split; [reflexivity|].
  refine (proj1 (depth_counts_separators "children" (Some "properties") 25
                   [] 100 false sample) 10%nat _ _).
  vm_compute; reflexivity.
Defined.

Lemma fields_carried_over_witness :
  subdoc {| _depth := 0; _idx := "0"; subdoc := Doc two_children |}
  = Doc two_children
  /\ 0 < 25
  /\ exists d,
       emitted "children" None 25 ["age"] false 0
         [ {| _depth := 0; _idx := "0"; subdoc := Doc two_children |} ]
       = Some [Doc d]
       /\ lookup "name" d = Some (Str "r")
       /\ lookup "children" d = None.
Proof.
  assert (H1 : 0 < 25) by lia.
  split; [reflexivity|]. split; [exact H1|].
  destruct (fields_carried_over "children" None 25 ["age"] false 0
              {| _depth := 0; _idx := "0"; subdoc := Doc two_children |}
              [] two_children eq_refl H1) as (d & Hd & Hk).
  exists d. split; [exact Hd|]. split.
  - rewrite Hk; [reflexivity|]. cbn [In]. intuition discriminate.
  - rewrite Hk; [reflexivity|]. cbn [In]. intuition discriminate.
Defined.

Lemma element_without_clashes_witness :
  subdoc {| _depth := 0; _idx := "0"; subdoc := Doc two_children |}
  = Doc two_children
  /\ 0 < 25
  /\ NoDup (map fst two_children)
  /\ (forall name, In name ["_ord"; "_depth"; "_idx"; "schema"] ->
                   ~ In name (map fst two_children))
  /\ emitted "children" None 25 [] false 0
       [ {| _depth := 0; _idx := "0"; subdoc := Doc two_children |} ]
     = Some [Doc [("_ord", Int 0); ("_depth", Int 0); ("_idx", Str "0");
                  ("name", Str "r")]].
Proof.
  assert (H1 : 0 < 25) by lia.
  assert (H2 : NoDup (map fst two_children))
    by (repeat constructor; cbn [In map fst two_children];
        intuition discriminate).
  assert (H3 : forall name, In name ["_ord"; "_depth"; "_idx"; "schema"] ->
                            ~ In name (map fst two_children))
    by (intros name [<-|[<-|[<-|[<-|[]]]]];
        cbn [In map fst two_children]; intuition discriminate).
  split; [reflexivity|]. split; [exact H1|]. split; [exact H2|].
  split; [exact H3|].
  exact (element_without_clashes "children" None 25 [] false 0
           {| _depth := 0; _idx := "0"; subdoc := Doc two_children |}
           [] two_children eq_refl H1 H2 H3).
Defined.

Lemma startWith_default_witness :
  (Some "children" = None \/ Some "children" = Some EmptyString
   \/ Some "children" = Some "children")
  /\ graphDescend "children" (Some "children") 25 [] 100 false two_children
     = graphDescend "children" None 25 [] 100 false two_children.
Proof.
  assert (H : Some "children" = None \/ Some "children" = Some EmptyString
              \/ Some "children" = Some "children")
    by (right; right; reflexivity).
  split; [exact H|].
  exact (startWith_default "children" (Some "children") 25 [] 100 false
           two_children H).
Defined.

Lemma omitFields_as_set_witness :
  (forall k, In k ["val"; "elmntId"; "val"] <-> In k ["elmntId"; "val"])
  /\ graphDescend "children" (Some "properties") 25
       ["val"; "elmntId"; "val"] 100 false sample
     = graphDescend "children" (Some "properties") 25
         ["elmntId"; "val"] 100 false sample.
Proof.
  assert (H : forall k, In k ["val"; "elmntId"; "val"]
                        <-> In k ["elmntId"; "val"])
    by (intros k; cbn [In]; tauto).
  split; [exact H|].
  exact (omitFields_as_set "children" (Some "properties") 25
           ["val"; "elmntId"; "val"] ["elmntId"; "val"] 100 false sample H).
Defined.

Lemma maxElements_prefix_witness :
  exists a',
    2 <= 5
    /\ reduce "children" (Some "properties") 5 [] 100 false sample = Some a'
    /\ exists a,
         reduce "children" (Some "properties") 2 [] 100 false sample = Some a
         /\ forall j, Z.of_nat j < 2 ->
              nth_error (result a) j = nth_error (result a') j.
Proof.
  eexists. split; [lia|]. split; [vm_compute; reflexivity|].
  refine (maxElements_prefix "children" (Some "properties") 2 5 [] 100 false
            sample _ _ _); [lia|vm_compute; reflexivity].
Defined.

Lemma maxElements_sufficient_witness :
  Z.of_nat (reachable "children" None 100 two_children) <= 3
  /\ 3 <= 25
  /\ graphDescend "children" None 25 [] 100 false two_children
     = graphDescend "children" None 3 [] 100 false two_children.
Proof.
  assert (H1 : Z.of_nat (reachable "children" None 100 two_children) <= 3)
    by (vm_compute; congruence).
  assert (H2 : 3 <= 25) by lia.
  split; [exact H1|]. split; [exact H2|].
  exact (maxElements_sufficient "children" None 3 25 [] 100 false
           two_children H1 H2).
Defined.

Lemma maxDepth_prefix_witness :
  exists a',
    maxDepth 1 <= maxDepth 100
    /\ reduce "children" (Some "properties") 25 [] 100 false sample = Some a'
    /\ exists a,
         reduce "children" (Some "properties") 25 [] 1 false sample = Some a
         /\ forall j r, nth_error (result a) j = Some r ->
              nth_error (result a') j = Some r.
Proof.
  assert (H : maxDepth 1 <= maxDepth 100) by (vm_compute; congruence).
  eexists. split; [exact H|]. split; [vm_compute; reflexivity|].
  refine (proj2 (maxDepth_prefix "children" (Some "properties") 25 [] 1 100
                   false sample H) _ _).
  vm_compute; reflexivity.
Defined.
